(** * Openwork dashboard: the derived view-models of the two App variants

    The repository holds two near-duplicate dashboards:
    - [Tremor]   embeds  src/src/App.tsx       (Tremor widgets, memoised view-models);
    - [Recharts] embeds  src/unnamed/part_000  (Recharts widgets, view-models
      computed inline on every render).

    Both poll three endpoints and derive the same family of view-models:
    agents over time, jobs by type, jobs by status, reward histogram,
    leaderboard, activity feed and completion rate, which they print
    through [formatNumber]; App.tsx counts its figures up with
    [useAnimatedNumber].  The definitions below follow the source
    statement by statement; the part of the JavaScript runtime they rely on
    (strings, [parseInt], [Array.prototype.sort], property enumeration order,
    [Date]) is modelled in [JS]. *)

From Stdlib Require Import ZArith QArith Qround Qabs Qpower Lqa String Ascii DecimalString.
From stdpp Require Import base tactics option list sorting gmap.

Local Open Scope Z_scope.

(** ** The JavaScript runtime the code relies on *)
Module JS.

(** A JavaScript string is a sequence of UTF-16 code units. *)
Abbreviation jsstring := (list N).

(** An ASCII literal as a JavaScript string. *)
Definition js (s : string) : jsstring :=
  N_of_ascii <$> list_ascii_of_string s.

(** [s.length] *)
Definition str_length (s : jsstring) : Z := Z.of_nat (length s).

(** [s.slice(0, n)] for [n >= 0] *)
Definition str_slice0 (n : Z) (s : jsstring) : jsstring := take (Z.to_nat n) s.

(** Truthiness of a string: only the empty string is falsy. *)
Definition truthy (s : jsstring) : bool :=
  match s with [] => false | _ :: _ => true end.

(** [v || d] where [v] is a string-typed property that may be missing
    ([undefined]/[null], modelled by [None]) or empty. *)
Definition or_else (v : option jsstring) (d : jsstring) : jsstring :=
  match v with
  | Some s => if truthy s then s else d
  | None => d
  end.

(** A number that can be [NaN] ([None]); the finite values met here are
    integers, which JavaScript represents exactly up to 2^53. *)
Abbreviation number := (option Z).

(** [b - a] on numbers: [NaN] is absorbing. *)
Definition sub (b a : number) : number :=
  match b, a with
  | Some y, Some x => Some (y - x)
  | _, _ => None
  end.

(** How [Array.prototype.sort] reads the comparator's result [v]:
    [v > 0] moves the first argument behind the second; [NaN] is read
    as [+0] (SortCompare, step "If v is NaN, return +0"). *)
Definition cmp_gt (v : number) : bool :=
  match v with
  | Some z => 0 <? z
  | None => false
  end.

(** [Array.prototype.sort(comparefn)].  ECMAScript requires the sort to be
    stable, which fixes the result whenever the comparator is a consistent
    ordering; for the other comparators the order is implementation-defined
    and this model is a stable insertion sort: an element moves behind the
    sorted elements it compares greater than and stops at the first one it
    does not. *)
Fixpoint sort_insert {A} (comparefn : A → A → number) (x : A) (l : list A) : list A :=
  match l with
  | [] => [x]
  | y :: l' =>
      if cmp_gt (comparefn x y) then y :: sort_insert comparefn x l' else x :: l
  end.

Definition Array_sort {A} (comparefn : A → A → number) (l : list A) : list A :=
  foldr (sort_insert comparefn) [] l.

(** [arr.slice(0, n)] *)
Definition Array_slice0 {A} (n : nat) (l : list A) : list A := take n l.

(** *** Keyed collections

    A [Map] and an ordinary object both remember the order in which their
    keys were first written; they are association lists in that order. *)
Abbreviation props V := (list (jsstring * V)).

Definition str_eqb (a b : jsstring) : bool := bool_decide (a = b).

(** [m.get(k)] / [obj[k]] *)
Fixpoint get {V} (k : jsstring) (m : props V) : option V :=
  match m with
  | [] => None
  | (k', v) :: m' => if str_eqb k k' then Some v else get k m'
  end.

(** [m.set(k, v)] / [obj[k] = v]: an existing key keeps its place. *)
Fixpoint set {V} (k : jsstring) (v : V) (m : props V) : props V :=
  match m with
  | [] => [(k, v)]
  | (k', v') :: m' => if str_eqb k k' then (k', v) :: m' else (k', v') :: set k v m'
  end.

(** Decimal digits of a code unit, and the numeric value of a digit string. *)
Definition is_digit (c : N) : bool := ((48 <=? c) && (c <=? 57))%N.

Definition decimal_value (s : jsstring) : Z :=
  foldl (λ acc c, 10 * acc + (Z.of_N c - 48)) 0 s.

(** An array index is a canonical numeric string ("0", or digits without a
    leading zero) whose value is at most 2^32 - 2. *)
Definition is_array_index (s : jsstring) : bool :=
  match s with
  | [] => false
  | c :: r =>
      forallb is_digit s
      && (negb (c =? 48)%N || match r with [] => true | _ => false end)
      && (length s <=? 10)%nat
      && (decimal_value s <=? 4294967294)
  end.

(** [Object.entries(obj)]: OrdinaryOwnPropertyKeys lists the array-index keys
    first, in ascending numeric order, then the other string keys in the
    order they were created. *)
Definition index_cmp {V} (a b : jsstring * V) : number :=
  Some (decimal_value a.1 - decimal_value b.1).

Definition Object_entries {V} (obj : props V) : props V :=
  Array_sort index_cmp (filter (λ e, is_array_index e.1 = true) obj)
  ++ filter (λ e, is_array_index e.1 = false) obj.

(** [Array.from(m.entries())] for a [Map]: plain insertion order. *)
Definition Map_entries {V} (m : props V) : props V := m.

(** *** [parseInt] (ECMAScript, section parseInt(string, radix)) *)

(** WhiteSpace and LineTerminator code points. *)
Definition is_white (c : N) : bool :=
  ((c =? 9) || (c =? 10) || (c =? 11) || (c =? 12) || (c =? 13) || (c =? 32)
   || (c =? 160) || (c =? 5760) || ((8192 <=? c) && (c <=? 8202))
   || (c =? 8232) || (c =? 8233) || (c =? 8239) || (c =? 8287)
   || (c =? 12288) || (c =? 65279))%N.

Fixpoint trim_start (s : jsstring) : jsstring :=
  match s with
  | c :: r => if is_white c then trim_start r else s
  | [] => []
  end.

(** The value of a code unit as a digit: 0-9, then a-z and A-Z for 10-35. *)
Definition digit_value (c : N) : option Z :=
  if ((48 <=? c) && (c <=? 57))%N then Some (Z.of_N c - 48)
  else if ((97 <=? c) && (c <=? 122))%N then Some (Z.of_N c - 87)
  else if ((65 <=? c) && (c <=? 90))%N then Some (Z.of_N c - 55)
  else None.

(** The longest prefix of radix-[R] digits, as digit values. *)
Fixpoint radix_digits (R : Z) (s : jsstring) : list Z :=
  match s with
  | [] => []
  | c :: r =>
      match digit_value c with
      | Some d => if d <? R then d :: radix_digits R r else []
      | None => []
      end
  end.

Definition radix_value (R : Z) (ds : list Z) : Z :=
  foldl (λ acc d, R * acc + d) 0 ds.

(** [parseInt(string, radix)]; an omitted radix is [0].  The result is
    [NaN] when no digit follows the optional sign (and prefix). *)
Definition parseInt (string : jsstring) (radix : Z) : number :=
  let trimmed := trim_start string in
  let '(sign, rest) :=
    match trimmed with
    | 45%N :: r => (-1, r)
    | 43%N :: r => (1, r)
    | _ => (1, trimmed)
    end in
  if negb (radix =? 0) && ((radix <? 2) || (36 <? radix)) then None
  else
    let stripPrefix := (radix =? 0) || (radix =? 16) in
    let R := if radix =? 0 then 10 else radix in
    let '(R, rest) :=
      if stripPrefix then
        match rest with
        | 48%N :: 120%N :: r => (16, r)
        | 48%N :: 88%N :: r => (16, r)
        | _ => (R, rest)
        end
      else (R, rest) in
    match radix_digits R rest with
    | [] => None
    | ds => Some (sign * radix_value R ds)
    end.

(** *** [Date] (ECMAScript, section "Time Values and Time Range")

    A Date object holds a time value: milliseconds since the epoch, or
    [NaN] for an invalid date. *)
Definition msPerDay : Z := 86400000.

Definition Day (t : Z) : Z := t / msPerDay.
Definition TimeWithinDay (t : Z) : Z := t mod msPerDay.

Definition DayFromYear (y : Z) : Z :=
  365 * (y - 1970) + (y - 1969) / 4 - (y - 1901) / 100 + (y - 1601) / 400.

Definition DaysInYear (y : Z) : Z :=
  if negb (y mod 4 =? 0) then 365
  else if negb (y mod 100 =? 0) then 366
  else if negb (y mod 400 =? 0) then 365
  else 366.

(** The largest [y] with [DayFromYear y <= day]: the mean year length
    146097/400 gives an estimate that is off by at most one. *)
Definition YearFromDay (day : Z) : Z :=
  let y := 1970 + (400 * day) / 146097 in
  if DayFromYear (y + 1) <=? day then y + 1
  else if DayFromYear y <=? day then y
  else y - 1.

Definition YearFromTime (t : Z) : Z := YearFromDay (Day t).

Definition InLeapYear (t : Z) : Z :=
  if DaysInYear (YearFromTime t) =? 366 then 1 else 0.

Definition DayWithinYear (t : Z) : Z := Day t - DayFromYear (YearFromTime t).

(** [MonthStart leap m]: the day within the year on which month [m]
    (0 = January) starts. *)
Definition MonthStart (leap m : Z) : Z :=
  match m with
  | 0 => 0
  | 1 => 31
  | 2 => 59 + leap
  | 3 => 90 + leap
  | 4 => 120 + leap
  | 5 => 151 + leap
  | 6 => 181 + leap
  | 7 => 212 + leap
  | 8 => 243 + leap
  | 9 => 273 + leap
  | 10 => 304 + leap
  | 11 => 334 + leap
  | _ => 365 + leap
  end.

Definition MonthFromDay (leap dwy : Z) : Z :=
  if dwy <? 31 then 0
  else if dwy <? 59 + leap then 1
  else if dwy <? 90 + leap then 2
  else if dwy <? 120 + leap then 3
  else if dwy <? 151 + leap then 4
  else if dwy <? 181 + leap then 5
  else if dwy <? 212 + leap then 6
  else if dwy <? 243 + leap then 7
  else if dwy <? 273 + leap then 8
  else if dwy <? 304 + leap then 9
  else if dwy <? 334 + leap then 10
  else 11.

Definition MonthFromTime (t : Z) : Z := MonthFromDay (InLeapYear t) (DayWithinYear t).

Definition DateFromTime (t : Z) : Z :=
  DayWithinYear t - MonthStart (InLeapYear t) (MonthFromTime t) + 1.

(** [MakeDay(year, month, date)] for a month in 0..11. *)
Definition MakeDay (year month date : Z) : Z :=
  DayFromYear year
  + MonthStart (if DaysInYear year =? 366 then 1 else 0) month + date - 1.

(** [n] in decimal, padded with zeros to [width] digits. *)
Fixpoint pad (width : nat) (n : Z) : jsstring :=
  match width with
  | O => []
  | S w => pad w (n / 10) ++ [Z.to_N (48 + n mod 10)]
  end.

(** [n] in decimal for [0 <= n < 100], as [Number.prototype.toString]. *)
Definition small_decimal (n : Z) : jsstring :=
  if n <? 10 then pad 1 n else pad 2 n.

(** [Date.prototype.toISOString] on a valid time value: years outside
    0..9999 use the expanded form with a sign and six digits. *)
Definition toISOString (t : Z) : jsstring :=
  let y := YearFromTime t in
  let w := TimeWithinDay t in
  (if (0 <=? y) && (y <=? 9999) then pad 4 y
   else (if 0 <=? y then js "+" else js "-") ++ pad 6 (Z.abs y))
  ++ js "-" ++ pad 2 (MonthFromTime t + 1)
  ++ js "-" ++ pad 2 (DateFromTime t)
  ++ js "T" ++ pad 2 (w / 3600000)
  ++ js ":" ++ pad 2 (w / 60000 mod 60)
  ++ js ":" ++ pad 2 (w / 1000 mod 60)
  ++ js "." ++ pad 3 (w mod 1000) ++ js "Z".

Definition month_short (m : Z) : jsstring :=
  match m with
  | 0 => js "Jan" | 1 => js "Feb" | 2 => js "Mar" | 3 => js "Apr"
  | 4 => js "May" | 5 => js "Jun" | 6 => js "Jul" | 7 => js "Aug"
  | 8 => js "Sep" | 9 => js "Oct" | 10 => js "Nov" | _ => js "Dec"
  end.

(** What the host decides: how [new Date(string)] reads a string (only the
    ISO format is fixed by ECMAScript; [None] is an invalid date), and the
    offset of local time from UTC at a given instant. *)
Class Runtime := {
  Date_parse : jsstring → number;
  LocalTZA : Z → Z;
}.

(** [date.toLocaleDateString('en-US', { month: 'short', day: 'numeric' })]:
    the local calendar day, as in "Jan 5"; "Invalid Date" for [NaN]. *)
Definition toLocaleDateString `{Runtime} (date : number) : jsstring :=
  match date with
  | None => js "Invalid Date"
  | Some t =>
      let lt := t + LocalTZA t in
      month_short (MonthFromTime lt) ++ js " " ++ small_decimal (DateFromTime lt)
  end.

(** [a.localeCompare(b)].  Collation depends on the locale; on the strings
    compared in this program (digits and hyphens at the same positions) it
    is the code-unit order modelled here. *)
Fixpoint localeCompare (a b : jsstring) : Z :=
  match a, b with
  | [], [] => 0
  | [], _ :: _ => -1
  | _ :: _, [] => 1
  | x :: a', y :: b' =>
      if (x <? y)%N then -1 else if (y <? x)%N then 1 else localeCompare a' b'
  end.

End JS.
Import JS.

(** ** The data model (the interfaces at the top of both files)

    Counts, rewards and scores are integers. *)

Module DashboardStats.
Record t := mk {
  totalAgents : Z;
  totalJobs : Z;
  openJobs : Z;
  claimedJobs : Z;
  completedJobs : Z;
  totalRewardsPaid : Z;
  totalRewardsEscrowed : Z;
}.
End DashboardStats.

Module Agent.
(** [onChainBalance] is read through [|| '0'], so it may be missing. *)
Record t := mk {
  id : jsstring;
  name : jsstring;
  jobs_completed : Z;
  jobs_posted : Z;
  reputation : Z;
  onChainBalance : option jsstring;
  created_at : jsstring;
  specialties : list jsstring;
}.
End Agent.

Module Job.
(** [type] is read through [|| 'general'], so it may be missing. *)
Record t := mk {
  id : jsstring;
  title : jsstring;
  reward : Z;
  status : jsstring;
  type : option jsstring;
  created_at : jsstring;
}.
End Job.

Module ActivityItem.
Record t := mk {
  id : jsstring;
  type : jsstring;
  agent_name : jsstring;
  job_title : option jsstring;
  timestamp : jsstring;
}.
End ActivityItem.

(** [tickFormatter(label, max)] of src/src/App.tsx; [8230] is the
    horizontal ellipsis U+2026. *)
Definition tickFormatter (label : jsstring) (max : Z) : jsstring :=
  if negb (truthy label) then []
  else if max <? str_length label then str_slice0 max label ++ [8230%N]
  else label.

(** ** Reward histogram *)

Module Bucket.
Record t := mk { range : jsstring; count : Z }.
End Bucket.

(** The literal the histogram starts from, identical in both files. *)
Definition initialBuckets : list Bucket.t :=
  [ Bucket.mk (js "0") 0;
    Bucket.mk (js "1-10K") 0;
    Bucket.mk (js "10K-50K") 0;
    Bucket.mk (js "50K-100K") 0;
    Bucket.mk (js "100K-500K") 0;
    Bucket.mk (js "500K+") 0 ].

(** [buckets[i].count += 1] *)
Definition bump (i : nat) (buckets : list Bucket.t) : list Bucket.t :=
  alter (λ b, Bucket.mk (Bucket.range b) (Bucket.count b + 1)) i buckets.

(** The body of [jobs.forEach]: the chain of [if]/[else if] on the reward. *)
Definition rewardStep (buckets : list Bucket.t) (job : Job.t) : list Bucket.t :=
  if Job.reward job =? 0 then bump 0 buckets
  else if Job.reward job <=? 10000 then bump 1 buckets
  else if Job.reward job <=? 50000 then bump 2 buckets
  else if Job.reward job <=? 100000 then bump 3 buckets
  else if Job.reward job <=? 500000 then bump 4 buckets
  else bump 5 buckets.

(** [acc[k] = (acc[k] || 0) + 1], the body of the tallying [reduce]s
    (own properties only). *)
Definition tally (acc : props Z) (k : jsstring) : props Z :=
  set k (default 0 (get k acc) + 1) acc.

(** The callback of [jobs.reduce] in [jobsByType], the same in both files. *)
Definition tallyType (acc : props Z) (job : Job.t) : props Z :=
  let type := or_else (Job.type job) (js "general") in
  tally acc type.

(** ** Leaderboard *)

(** The [leaderboardSort] state: ['balance' | 'jobs' | 'reputation']. *)
Module LeaderboardSort.
Inductive t := balance | jobs | reputation.
End LeaderboardSort.

(** The comparator given to [sort] in [topAgents].  [radix] is what is
    passed to [parseInt] ([0] when omitted). *)
Definition compareAgents (radix : Z) (leaderboardSort : LeaderboardSort.t)
    (a b : Agent.t) : number :=
  match leaderboardSort with
  | LeaderboardSort.jobs => Some (Agent.jobs_completed b - Agent.jobs_completed a)
  | LeaderboardSort.reputation => Some (Agent.reputation b - Agent.reputation a)
  | LeaderboardSort.balance =>
      let balA := parseInt (or_else (Agent.onChainBalance a) (js "0")) radix in
      let balB := parseInt (or_else (Agent.onChainBalance b) (js "0")) radix in
      sub balB balA
  end.

(** *** Arrays as shared objects

    [Array.prototype.sort] sorts in place and returns its receiver, while
    the spread [[...a]] and [slice] allocate.  A store maps array references
    to their current contents. *)
Module Store.
Section store.
Context {A : Type}.

Definition ref := nat.

(** A computation on the store; [None] when a reference dangles. *)
Definition M (R : Type) := gmap nat (list A) → option (R * gmap nat (list A)).

Definition ret {R} (x : R) : M R := λ h, Some (x, h).
Definition bind {R S} (m : M R) (k : R → M S) : M S :=
  λ h, match m h with Some (x, h') => k x h' | None => None end.

Definition alloc (l : list A) : M ref :=
  λ h, let r := fresh (dom h) in Some (r, <[r := l]> h).

(** [[...a]] *)
Definition spread (a : ref) : M ref :=
  λ h, match h !! a with Some l => alloc l h | None => None end.

(** [a.sort(comparefn)] *)
Definition sort (comparefn : A → A → number) (a : ref) : M ref :=
  λ h, match h !! a with
       | Some l => Some (a, <[a := Array_sort comparefn l]> h)
       | None => None
       end.

(** [a.slice(0, n)] *)
Definition slice0 (n : nat) (a : ref) : M ref :=
  λ h, match h !! a with Some l => alloc (Array_slice0 n l) h | None => None end.
End store.
Arguments M : clear implicits.
End Store.

(** ** Rows handed to the charts *)

Module DayBucket.
Record t := mk { label : jsstring; count : Z }.
End DayBucket.

Module TimePoint.
Record t := mk { date : jsstring; count : Z; cumulative : Z; key : jsstring }.
End TimePoint.

Module JobTypeRow.
Record t := mk { name : jsstring; fullName : jsstring; Jobs : Z }.
End JobTypeRow.

Module RewardBar.
Record t := mk { range : jsstring; Jobs : Z }.
End RewardBar.

(** ** Numbers of the completion rate

    The rate is a quotient, so it leaves the integers: a number is here a
    rational, an infinity or [NaN].  Rationals stand for the doubles the
    browser computes with; division by zero behaves as in IEEE 754. *)
Module Float.
Inductive t := Finite (q : Q) | PosInfinity | NegInfinity | NaN.

Definition of_Z (n : Z) : t := Finite (inject_Z n).

(** [a / b] on integers. *)
Definition div (a b : Z) : t :=
  if b =? 0 then
    if a =? 0 then NaN else if 0 <? a then PosInfinity else NegInfinity
  else Finite (inject_Z a / inject_Z b).

(** [x * k] for a positive integer constant [k]. *)
Definition scale (x : t) (k : Z) : t :=
  match x with
  | Finite q => Finite (q * inject_Z k)
  | other => other
  end.

Definition decimal (n : Z) : jsstring :=
  js (DecimalString.NilZero.string_of_uint (N.to_uint (Z.to_N n))).

(** [x.toFixed(1)]: the nearest multiple of 1/10, the larger one on a tie. *)
Definition toFixed1 (x : t) : jsstring :=
  match x with
  | NaN => js "NaN"
  | PosInfinity => js "Infinity"
  | NegInfinity => js "-Infinity"
  | Finite q =>
      let n := Qfloor (Qabs q * inject_Z 10 + (1 # 2)) in
      (if Qnum q <? 0 then js "-" else [])
      ++ decimal (n / 10) ++ js "." ++ decimal (n mod 10)
  end.
End Float.

(** ** Rounding to a double

    Where a digit of the output depends on it ([formatNumber], the status
    percentages), a quotient or product is rounded as IEEE 754 binary64
    does: to the nearest number with a 53-bit significand, the one with the
    even significand on a tie.  A double is still the rational it denotes.
    The model covers the normal range, which these quotients and products
    never leave. *)
Module Double.

Definition pow2 (k : Z) : Q := (2 ^ k)%Q.

(** The exponent of a positive rational [a]: [2^e <= a < 2^(e+1)]. *)
Definition exponent (a : Q) : Z :=
  let e0 := Z.log2 (Qnum a) - Z.log2 (Zpos (Qden a)) in
  if Qle_bool (pow2 e0) a then e0 else e0 - 1.

(** The integer nearest to [x], the even one on a tie. *)
Definition nearest_even (x : Q) : Z :=
  let f := Qfloor x in
  match Qcompare (x - inject_Z f) (1 # 2) with
  | Lt => f
  | Gt => f + 1
  | Eq => if Z.even f then f else f + 1
  end.

Definition round (q : Q) : Q :=
  if Qeq_bool q 0 then 0%Q
  else
    let a := Qabs q in
    let e := exponent a in
    let m := nearest_even (a * pow2 (52 - e)) in
    Qred ((if Qnum q <? 0 then -1 else 1) * inject_Z m * pow2 (e - 52))%Q.

(** The number an integer denotes: the nearest double. *)
Definition of_Z (n : Z) : Float.t := Float.Finite (round (inject_Z n)).

(** The number [parseInt] returns. *)
Definition of_number (x : number) : Float.t :=
  match x with
  | Some n => of_Z n
  | None => Float.NaN
  end.

(** [x >= k] for a constant [k]; false on [NaN]. *)
Definition ge (x : Float.t) (k : Q) : bool :=
  match x with
  | Float.Finite q => Qle_bool k q
  | Float.PosInfinity => true
  | Float.NegInfinity | Float.NaN => false
  end.

(** [x / k] for a non-negative integer [k] that a double holds exactly
    (a power of ten up to 10^9, the length of an array). *)
Definition div (x : Float.t) (k : Z) : Float.t :=
  match x with
  | Float.Finite q =>
      if k =? 0 then
        if Qeq_bool q 0 then Float.NaN
        else if Qle_bool 0 q then Float.PosInfinity else Float.NegInfinity
      else Float.Finite (round (q / inject_Z k))
  | other => other
  end.

(** [x * k] for a positive integer constant [k]. *)
Definition mul (x : Float.t) (k : Z) : Float.t :=
  match x with
  | Float.Finite q => Float.Finite (round (q * inject_Z k))
  | other => other
  end.
End Double.

(** Number formatting the host provides.  [Number_toLocaleString] depends
    on the locale; [Number_toString] is fixed by ECMAScript for every
    number, and is given here on the finite ones ([Number_digits]) by the
    host as well, since the dashboard only adds to its result. *)
Class NumberFormat := {
  Number_toLocaleString : Q → jsstring;
  Number_digits : Q → jsstring;
}.

(** [num.toString()]. *)
Definition Number_toString `{NumberFormat} (num : Float.t) : jsstring :=
  match num with
  | Float.Finite q => Number_digits q
  | Float.PosInfinity => js "Infinity"
  | Float.NegInfinity => js "-Infinity"
  | Float.NaN => js "NaN"
  end.

(** ** src/src/App.tsx *)
Module Tremor.

Section dates.
Context `{Runtime}.

(** The callback of [agents.forEach] in [agentsOverTime]. *)
Definition bucketAgent (buckets : props DayBucket.t) (agent : Agent.t)
    : props DayBucket.t :=
  let createdAt := Date_parse (Agent.created_at agent) in
  match createdAt with
  | None => buckets
  | Some t =>
      let key := str_slice0 10 (toISOString t) in
      let label := toLocaleDateString createdAt in
      match get key buckets with
      | Some existing =>
          set key (DayBucket.mk (DayBucket.label existing) (DayBucket.count existing + 1))
            buckets
      | None => set key (DayBucket.mk (tickFormatter label 9) 1) buckets
      end
  end.

(** [sorted.map(...)] with the captured [cumulative] counter. *)
Fixpoint accumulate (cumulative : Z) (sorted : props DayBucket.t) : list TimePoint.t :=
  match sorted with
  | [] => []
  | (key, value) :: rest =>
      let cumulative := cumulative + DayBucket.count value in
      TimePoint.mk (DayBucket.label value) (DayBucket.count value) cumulative key
      :: accumulate cumulative rest
  end.

Definition agentsOverTime (agents : list Agent.t) : list TimePoint.t :=
  let buckets := foldl bucketAgent [] agents in
  let sorted :=
    Array_sort (λ a b, Some (localeCompare a.1 b.1)) (Map_entries buckets) in
  accumulate 0 sorted.

Definition compareActivity (a b : ActivityItem.t) : number :=
  sub (Date_parse (ActivityItem.timestamp b)) (Date_parse (ActivityItem.timestamp a)).

Definition activityItems (activity : list ActivityItem.t) : list ActivityItem.t :=
  Array_slice0 12 (Array_sort compareActivity activity).
End dates.

Definition jobsByType (jobs : list Job.t) : props Z :=
  foldl tallyType [] jobs.

Definition jobTypeData (jobs : list Job.t) : list JobTypeRow.t :=
  Array_slice0 6
    (Array_sort (λ a b, Some (JobTypeRow.Jobs b - JobTypeRow.Jobs a))
       ((λ '(name, value), JobTypeRow.mk (tickFormatter name 14) name value)
          <$> Object_entries (jobsByType jobs))).

Definition rewardBuckets (jobs : list Job.t) : list RewardBar.t :=
  (λ bucket, RewardBar.mk (tickFormatter (Bucket.range bucket) 10) (Bucket.count bucket))
    <$> foldl rewardStep initialBuckets jobs.

Definition topAgents (leaderboardSort : LeaderboardSort.t) (agents : list Agent.t)
    : list Agent.t :=
  Array_slice0 10 (Array_sort (compareAgents 10 leaderboardSort) agents).

(** [topAgents] on the store: [[...agents].sort(...).slice(0, 10)]. *)
Definition topAgents_store (leaderboardSort : LeaderboardSort.t) (agents : Store.ref)
    : Store.M Agent.t Store.ref :=
  Store.bind (Store.spread agents) (λ copy,
  Store.bind (Store.sort (compareAgents 10 leaderboardSort) copy) (λ sorted,
  Store.slice0 10 sorted)).

(** [completionRateValue]; [stats?.totalJobs ?? 0] reads 0 while [stats]
    is still [null]. *)
Definition completionRateValue (stats : option DashboardStats.t) : Float.t :=
  let totalJobs := default 0 (DashboardStats.totalJobs <$> stats) in
  let completedJobs := default 0 (DashboardStats.completedJobs <$> stats) in
  if 0 <? totalJobs then Float.scale (Float.div completedJobs totalJobs) 100
  else Float.of_Z 0.

(** The "Completion Rate" card once the count-up animation has settled:
    [`${animatedCompletion.toFixed(1)}%`]. *)
Definition completionCard (stats : option DashboardStats.t) : jsstring :=
  Float.toFixed1 (completionRateValue stats) ++ js "%".

(** *** Formatting *)

Section numbers.
Context `{NumberFormat}.

(** [formatNumber]. *)
Definition formatNumber (num : Float.t) : jsstring :=
  match num with
  | Float.Finite q =>
      if Qle_bool 1000000000 (Qabs q)
      then Float.toFixed1 (Double.div num 1000000000) ++ js "B"
      else if Qle_bool 1000000 (Qabs q)
      then Float.toFixed1 (Double.div num 1000000) ++ js "M"
      else if Qle_bool 1000 (Qabs q)
      then Float.toFixed1 (Double.div num 1000) ++ js "K"
      else Number_toLocaleString q
  | _ => js "0"
  end.

Definition formatTokens (num : Float.t) : jsstring := formatNumber num ++ js " $OW".

(** The balance cell of a leaderboard row:
    [formatNumber(parseInt(agent.onChainBalance || '0', 10))]. *)
Definition balanceCell (agent : Agent.t) : jsstring :=
  formatNumber (Double.of_number (parseInt (or_else (Agent.onChainBalance agent) (js "0")) 10)).
End numbers.

Module StatusRow.
Record t := mk { name : jsstring; value : Z }.
End StatusRow.

(** [formatStatus]: [status.replace(/_/g, ' ')]; 95 is the underscore and
    32 the space. *)
Definition formatStatus (status : jsstring) : jsstring :=
  (λ c, if (c =? 95)%N then 32%N else c) <$> status.

Definition jobsByStatus (jobs : list Job.t) : props Z :=
  foldl (λ acc job, tally acc (Job.status job)) [] jobs.

Definition statusData (jobs : list Job.t) : list StatusRow.t :=
  Array_sort (λ a b, Some (StatusRow.value b - StatusRow.value a))
    ((λ '(status, count), StatusRow.mk (formatStatus status) count)
       <$> Object_entries (jobsByStatus jobs)).

(** [useAnimatedNumber]: the hook's cells and the two callbacks that change
    them.  Time is in milliseconds; [duration] is always the default, 750.
    Arithmetic is exact, as it is in doubles on the integer counters the
    hook is given; for the completion rate ([decimals = 1]) the rounding
    errors of the single operations are left out. *)
Module AnimatedNumber.
Local Open Scope Q_scope.

(** What the closure [animate] of one effect run captures. *)
Record animation := mkAnimation {
  startValue : Q;
  endValue : Q;
  startTime : Q;
  factor : Q;
}.

(** [displayValue], [previousValue.current] and the frame requested and
    not yet run or cancelled. *)
Record t := mk {
  displayValue : Q;
  previousValue : Q;
  frame : option animation;
}.






End AnimatedNumber.

End Tremor.

(** ** src/unnamed/part_000 *)
Module Recharts.

Module TimePoint.
Record t := mk { date : jsstring; count : Z; cumulative : Z }.
End TimePoint.

Module JobTypeSlice.
Record t := mk { name : jsstring; value : Z }.
End JobTypeSlice.

Section dates.
Context `{Runtime}.

Definition agentsByDate (agents : list Agent.t) : props Z :=
  foldl (λ acc agent,
           let date := toLocaleDateString (Date_parse (Agent.created_at agent)) in
           tally acc date) [] agents.

(** The comparator of [sortedDates]: both labels are read back as dates
    of the year 2026. *)
Definition compareDates (a b : jsstring * Z) : number :=
  sub (Date_parse (a.1 ++ js " 2026")) (Date_parse (b.1 ++ js " 2026")).

Definition sortedDates (agents : list Agent.t) : props Z :=
  Array_sort compareDates (Object_entries (agentsByDate agents)).

(** [sortedDates.forEach(...)] pushing rows while [cumulative] grows. *)
Fixpoint accumulate (cumulative : Z) (sorted : props Z) : list TimePoint.t :=
  match sorted with
  | [] => []
  | (date, count) :: rest =>
      let cumulative := cumulative + count in
      TimePoint.mk date count cumulative :: accumulate cumulative rest
  end.

Definition agentsOverTime (agents : list Agent.t) : list TimePoint.t :=
  accumulate 0 (sortedDates agents).
End dates.

Definition jobsByType (jobs : list Job.t) : props Z :=
  foldl tallyType [] jobs.

Definition jobTypeData (jobs : list Job.t) : list JobTypeSlice.t :=
  (λ '(name, value), JobTypeSlice.mk name value) <$> Object_entries (jobsByType jobs).

Definition rewardBuckets (jobs : list Job.t) : list Bucket.t :=
  foldl rewardStep initialBuckets jobs.

Definition topAgents (leaderboardSort : LeaderboardSort.t) (agents : list Agent.t)
    : list Agent.t :=
  Array_slice0 10 (Array_sort (compareAgents 0 leaderboardSort) agents).

Definition topAgents_store (leaderboardSort : LeaderboardSort.t) (agents : Store.ref)
    : Store.M Agent.t Store.ref :=
  Store.bind (Store.spread agents) (λ copy,
  Store.bind (Store.sort (compareAgents 0 leaderboardSort) copy) (λ sorted,
  Store.slice0 10 sorted)).

(** The list rendered under "Recent Activity": [activity.slice(0, 15)]. *)
Definition recentActivity (activity : list ActivityItem.t) : list ActivityItem.t :=
  Array_slice0 15 activity.

(** [completionRate]: guarded on [stats] being loaded only. *)
Definition completionRate (stats : option DashboardStats.t) : jsstring :=
  match stats with
  | Some stats =>
      Float.toFixed1
        (Float.scale
           (Float.div (DashboardStats.completedJobs stats) (DashboardStats.totalJobs stats))
           100)
  | None => js "0"
  end.

(** The "Completion Rate" card: [`${completionRate}%`]. *)
Definition completionCard (stats : option DashboardStats.t) : jsstring :=
  completionRate stats ++ js "%".

(** *** Formatting *)

Section numbers.
Context `{NumberFormat}.

(** [formatNumber]. *)
Definition formatNumber (num : Float.t) : jsstring :=
  if Double.ge num 1000000000 then Float.toFixed1 (Double.div num 1000000000) ++ js "B"
  else if Double.ge num 1000000 then Float.toFixed1 (Double.div num 1000000) ++ js "M"
  else if Double.ge num 1000 then Float.toFixed1 (Double.div num 1000) ++ js "K"
  else Number_toString num.

Definition formatTokens (num : Float.t) : jsstring := formatNumber num ++ js " $OW".

(** The balance cell of a leaderboard row:
    [formatNumber(parseInt(agent.onChainBalance || '0'))]. *)
Definition balanceCell (agent : Agent.t) : jsstring :=
  formatNumber (Double.of_number (parseInt (or_else (Agent.onChainBalance agent) (js "0")) 0)).
End numbers.

(** *** Job status *)

Definition jobsByStatus (jobs : list Job.t) : props Z :=
  foldl (λ acc job, tally acc (Job.status job)) [] jobs.

Module StatusLine.
Record t := mk { status : jsstring; count : Z; percent : jsstring; color : jsstring }.
End StatusLine.

(** The bars under "Completion Rates": one per status, in the order of
    [Object.entries(jobsByStatus)]. *)
Definition statusLines (jobs : list Job.t) : list StatusLine.t :=
  (λ '(status, count),
     let percent :=
       Float.toFixed1
         (Double.mul (Double.div (Double.of_Z count) (Z.of_nat (length jobs))) 100) in
     let color :=
       if bool_decide (status = js "verified") then js "#10b981"
       else if bool_decide (status = js "open") then js "#6366f1"
       else js "#f59e0b" in
     StatusLine.mk status count percent color)
  <$> Object_entries (jobsByStatus jobs).

End Recharts.

(** ** The poll loop ([fetchData], identical in both files) *)
Module Poll.

(** What a rejected promise or a [throw] carries: an [Error] with its
    message, or some other value. *)
Inductive thrown := Error (message : jsstring) | NotAnError.

(** A [Response]: its [ok] flag and what [json()] settles to. *)
Record Response (B : Type) := mkResponse {
  ok : bool;
  json : thrown + B;
}.
Arguments mkResponse {B}.
Arguments ok {B}.
Arguments json {B}.

(** How one [fetch] settles, and when (the rank among the three). *)
Inductive settled (B : Type) :=
  | Fulfilled (at_ : nat) (res : Response B)
  | Rejected (at_ : nat) (reason : thrown).
Arguments Fulfilled {B}.
Arguments Rejected {B}.

Record DashData := mkDashData {
  stats : DashboardStats.t;
  activity : option (list ActivityItem.t);
}.

(** One poll cycle's replies from /api/dashboard, /api/agents, /api/jobs. *)
Record Replies := mkReplies {
  dashboard : settled DashData;
  agents : settled (list Agent.t);
  jobs : settled (list Job.t);
}.

Definition rejection {B} (s : settled B) : option (nat * thrown) :=
  match s with
  | Rejected at_ reason => Some (at_, reason)
  | Fulfilled _ _ => None
  end.

(** The earlier of two rejections; the first listed wins a tie. *)
Definition earlier (a b : option (nat * thrown)) : option (nat * thrown) :=
  match a, b with
  | Some (ta, ra), Some (tb, rb) => if (tb <? ta)%nat then Some (tb, rb) else Some (ta, ra)
  | Some x, None => Some x
  | None, other => other
  end.

(** [Promise.all([...])]: rejects with the reason of the first promise to
    reject, otherwise fulfils with the three responses. *)
Definition Promise_all (r : Replies)
    : thrown + (Response DashData * Response (list Agent.t) * Response (list Job.t)) :=
  match earlier (rejection (dashboard r)) (earlier (rejection (agents r)) (rejection (jobs r))) with
  | Some (_, reason) => inl reason
  | None =>
      match dashboard r, agents r, jobs r with
      | Fulfilled _ d, Fulfilled _ a, Fulfilled _ j => inr (d, a, j)
      | _, _, _ => inl NotAnError
      end
  end.

(** The component's [useState] cells. *)
Record State := mkState {
  st_stats : option DashboardStats.t;
  st_agents : list Agent.t;
  st_jobs : list Job.t;
  st_activity : list ActivityItem.t;
  st_loading : bool;
  st_error : option jsstring;
  st_leaderboardSort : LeaderboardSort.t;
}.

(** The initial render's state. *)
Definition initial : State :=
  mkState None [] [] [] true None LeaderboardSort.jobs.

(** The [catch] block. *)
Definition catch (e : thrown) (s : State) : State :=
  let message := match e with Error m => m | NotAnError => js "Unknown error" end in
  mkState (st_stats s) (st_agents s) (st_jobs s) (st_activity s)
    false (Some message) (st_leaderboardSort s).

(** [fetchData], given how the three requests settle. *)
Definition fetchData (r : Replies) (s : State) : State :=
  match Promise_all r with
  | inl reason => catch reason s
  | inr (dashRes, agentsRes, jobsRes) =>
      if negb (ok dashRes) || negb (ok agentsRes) || negb (ok jobsRes)
      then catch (Error (js "Failed to fetch data")) s
      else
        match json dashRes with
        | inl e => catch e s
        | inr dashData =>
            match json agentsRes with
            | inl e => catch e s
            | inr agentsData =>
                match json jobsRes with
                | inl e => catch e s
                | inr jobsData =>
                    mkState (Some (stats dashData)) agentsData jobsData
                      (default [] (activity dashData))
                      false (st_error s) (st_leaderboardSort s)
                end
            end
        end
  end.

(** What the user can make happen, and what the timer does. *)
Inductive event :=
  | Tick (r : Replies)
  | SelectSort (key : LeaderboardSort.t).

(** The URLs requested while an event is handled.  The effect that calls
    [fetchData] has an empty dependency list, so only the mount and the
    30-second timer run it; a sort button only calls [setLeaderboardSort]. *)
Definition requests (e : event) : list jsstring :=
  match e with
  | Tick _ =>
      [ js "https://www.openwork.bot/api/dashboard";
        js "https://www.openwork.bot/api/agents";
        js "https://www.openwork.bot/api/jobs" ]
  | SelectSort _ => []
  end.

Definition handle (e : event) (s : State) : State :=
  match e with
  | Tick r => fetchData r s
  | SelectSort key =>
      mkState (st_stats s) (st_agents s) (st_jobs s) (st_activity s)
        (st_loading s) (st_error s) key
  end.

(** The three returns of the component body. *)
Inductive view :=
  | LoadingView
  | ErrorView (message : jsstring)
  | DashboardView (s : State).

Definition render (s : State) : view :=
  if st_loading s then LoadingView
  else
    match st_error s with
    | Some message => if truthy message then ErrorView message else DashboardView s
    | None => DashboardView s
    end.

End Poll.

(** ** A host

    A browser whose local time is UTC and whose [Date] reads the ISO forms
    [YYYY-MM-DD] and [YYYY-MM-DDTHH:mm:ss(.sss)Z] and the legacy form
    [Mon D YYYY] (local midnight); every other string is an invalid date. *)
Module Host.

Definition digits (s : jsstring) : option Z :=
  if forallb is_digit s && negb (bool_decide (s = [])) then Some (decimal_value s) else None.

Definition DaysInMonth (year month : Z) : Z :=
  let leap := if DaysInYear year =? 366 then 1 else 0 in
  MonthStart leap (month + 1) - MonthStart leap month.

(** The day number of a calendar date given with a month in 1..12. *)
Definition civil (y m d : Z) : number :=
  if (1 <=? m) && (m <=? 12) && (1 <=? d) && (d <=? DaysInMonth y (m - 1))
  then Some (MakeDay y (m - 1) d)
  else None.

Definition parse_clock (s : jsstring) : number :=
  match s with
  | [] => Some 0
  | 84%N :: h1 :: h0 :: 58%N :: m1 :: m0 :: 58%N :: s1 :: s0 :: rest =>
      hh ← digits [h1; h0];
      mm ← digits [m1; m0];
      ss ← digits [s1; s0];
      ms ← match rest with
           | [90%N] => Some 0
           | [46%N; a; b; c; 90%N] => digits [a; b; c]
           | _ => None
           end;
      if (hh <? 24) && (mm <? 60) && (ss <? 60)
      then Some (hh * 3600000 + mm * 60000 + ss * 1000 + ms)
      else None
  | _ => None
  end.

Definition parse_iso (s : jsstring) : number :=
  match s with
  | y3 :: y2 :: y1 :: y0 :: 45%N :: m1 :: m0 :: 45%N :: d1 :: d0 :: clock =>
      y ← digits [y3; y2; y1; y0];
      m ← digits [m1; m0];
      d ← digits [d1; d0];
      day ← civil y m d;
      w ← parse_clock clock;
      Some (day * msPerDay + w)
  | _ => None
  end.

Definition month_number (name : jsstring) : option Z :=
  list_find (λ m, month_short (Z.of_nat m) = name) (seq 0 12)
  ≫= λ '(i, _), Some (Z.of_nat i + 1).

Definition parse_legacy (s : jsstring) : number :=
  match s with
  | a :: b :: c :: 32%N :: rest =>
      m ← month_number [a; b; c];
      match rest with
      | d0 :: 32%N :: year =>
          d ← digits [d0]; y ← digits year; day ← civil y m d; Some (day * msPerDay)
      | d1 :: d0 :: 32%N :: year =>
          d ← digits [d1; d0]; y ← digits year; day ← civil y m d; Some (day * msPerDay)
      | _ => None
      end
  | _ => None
  end.

Definition parse (s : jsstring) : number :=
  match parse_iso s with
  | Some t => Some t
  | None => parse_legacy s
  end.

Definition utc : Runtime := {| Date_parse := parse; LocalTZA := λ _, 0 |}.

End Host.

(** ** A host's number formatting

    The en-US forms of the integers, which is all the examples format:
    digits in groups of three for [toLocaleString], plain digits for
    [toString]. *)
Module HostNumbers.

Fixpoint group (fuel : nat) (n : Z) : jsstring :=
  match fuel with
  | O => Float.decimal n
  | S fuel =>
      if n <? 1000 then Float.decimal n
      else group fuel (n / 1000) ++ js "," ++ pad 3 (n mod 1000)
  end.

Definition sign (q : Q) : jsstring := if Qnum q <? 0 then js "-" else [].

Definition enUS : NumberFormat := {|
  Number_toLocaleString q := sign q ++ group 32 (Qfloor (Qabs q));
  Number_digits q := sign q ++ Float.decimal (Qfloor (Qabs q));
|}.

End HostNumbers.

(** * Vocabulary of the properties *)

(** ** Order *)

(** [l] lists its elements by [score], largest first. *)
Definition descending {A} (score : A → Z) (l : list A) : Prop :=
  StronglySorted (λ a b, score b ≤ score a) l.

(** [ranked] is [agents] sorted by [score], largest first, equal scores in
    their original order. *)
Definition rankedBy {A} (score : A → Z) (agents ranked : list A) : Prop :=
  ranked ≡ₚ agents
  ∧ descending score ranked
  ∧ ∀ k, filter (λ a, score a = k) ranked = filter (λ a, score a = k) agents.

(** ** Calendar days *)

(** [t1] falls on an earlier calendar date (year, month, day) than [t2]. *)
Definition civilBefore (t1 t2 : Z) : Prop :=
  YearFromTime t1 < YearFromTime t2
  ∨ (YearFromTime t1 = YearFromTime t2
     ∧ (MonthFromTime t1 < MonthFromTime t2
        ∨ (MonthFromTime t1 = MonthFromTime t2 ∧ DateFromTime t1 < DateFromTime t2))).

Definition civilSame (t1 t2 : Z) : Prop :=
  YearFromTime t1 = YearFromTime t2
  ∧ MonthFromTime t1 = MonthFromTime t2
  ∧ DateFromTime t1 = DateFromTime t2.

(** The day key of an instant: [toISOString().slice(0, 10)]. *)
Definition isoDay (t : Z) : jsstring := str_slice0 10 (toISOString t).

(** ** Reward ranges *)

(** The range each bucket label stands for. *)
Definition inBucket (i : nat) (reward : Z) : Prop :=
  match i with
  | 0%nat => reward = 0
  | 1%nat => reward ≠ 0 ∧ reward ≤ 10000
  | 2%nat => 10000 < reward ≤ 50000
  | 3%nat => 50000 < reward ≤ 100000
  | 4%nat => 100000 < reward ≤ 500000
  | 5%nat => 500000 < reward
  | _ => False
  end.

#[local] Instance inBucket_dec i reward : Decision (inBucket i reward).
Proof. do 6 (destruct i as [|i]; [simpl; apply _|]). simpl. apply _. Defined.

(** The number of jobs whose reward lies in bucket [i]. *)
Definition jobsIn (i : nat) (jobs : list Job.t) : Z :=
  Z.of_nat (length (filter (λ job, inBucket i (Job.reward job)) jobs)).

Definition bucketLabels : list jsstring :=
  [js "0"; js "1-10K"; js "10K-50K"; js "50K-100K"; js "100K-500K"; js "500K+"].

(** ** Agents and their days *)

(** The agents whose [created_at] the host can read as a date. *)
Definition validAgents `{Runtime} (agents : list Agent.t) : list Agent.t :=
  filter (λ agent, is_Some (Date_parse (Agent.created_at agent))) agents.

(** The day key of an agent, when its [created_at] can be read. *)
Definition dayKey `{Runtime} (agent : Agent.t) : option jsstring :=
  isoDay <$> Date_parse (Agent.created_at agent).

(** The number of agents created on the day with key [k]. *)
Definition agentsOn `{Runtime} (k : jsstring) (agents : list Agent.t) : Z :=
  Z.of_nat (length (filter (λ agent, dayKey agent = Some k) agents)).

(** The total of the counts held in a keyed collection. *)
Definition sumBy {V} (f : V → Z) (m : props V) : Z :=
  foldr Z.add 0 ((λ e, f e.2) <$> m).


(** The count a collection holds under [k], 0 when [k] is not a key. *)
Definition countOn (buckets : props DayBucket.t) (k : jsstring) : Z :=
  default 0 (DayBucket.count <$> get k buckets).

Definition countIn (acc : props Z) (k : jsstring) : Z := default 0 (get k acc).

(** ** Leaderboard metrics *)

(** The metric a sort key ranks by; the balance is [parseInt] of the
    string, read as "0" when missing or empty, and may be [NaN]. *)
Definition metric (radix : Z) (key : LeaderboardSort.t) (agent : Agent.t) : number :=
  match key with
  | LeaderboardSort.jobs => Some (Agent.jobs_completed agent)
  | LeaderboardSort.reputation => Some (Agent.reputation agent)
  | LeaderboardSort.balance => parseInt (or_else (Agent.onChainBalance agent) (js "0")) radix
  end.

Definition score (radix : Z) (key : LeaderboardSort.t) (agent : Agent.t) : Z :=
  default 0 (metric radix key agent).

(** ** Job categories *)



(** ** Activity *)

(** The host can read the item's timestamp. *)
Definition timed `{Runtime} (item : ActivityItem.t) : Prop :=
  is_Some (Date_parse (ActivityItem.timestamp item)).

(** The instant the host reads from the item's timestamp. *)
Definition instant `{Runtime} (item : ActivityItem.t) : Z :=
  default 0 (Date_parse (ActivityItem.timestamp item)).

(** ** Poll cycles *)





(** The bodies of a cycle in which the three fetches are fulfilled with an
    [ok] status and parse as JSON; [None] for every other cycle. *)
Definition payload (r : Poll.Replies)
    : option (Poll.DashData * list Agent.t * list Job.t) :=
  match Poll.dashboard r, Poll.agents r, Poll.jobs r with
  | Poll.Fulfilled _ (Poll.mkResponse true (inr d)),
    Poll.Fulfilled _ (Poll.mkResponse true (inr a)),
    Poll.Fulfilled _ (Poll.mkResponse true (inr j)) => Some (d, a, j)
  | _, _, _ => None
  end.

(** The state after a sequence of events. *)
Definition run (events : list Poll.event) (s : Poll.State) : Poll.State :=
  foldl (λ s e, Poll.handle e s) s events.

(** Every poll cycle of [events] delivers its three bodies. *)
Definition allDelivered (events : list Poll.event) : Prop :=
  Forall (λ e, match e with
               | Poll.Tick r => is_Some (payload r)
               | Poll.SelectSort _ => True
               end) events.

(** ** Job status *)

(** The names every object inherits from [Object.prototype]: read through
    [acc[k]] they are not [undefined], so the tallying [reduce]s count
    correctly only the keys outside this list. *)
Definition inheritedKeys : list jsstring :=
  js <$> [ "constructor"; "hasOwnProperty"; "isPrototypeOf"; "propertyIsEnumerable";
           "toLocaleString"; "toString"; "valueOf"; "__proto__";
           "__defineGetter__"; "__defineSetter__"; "__lookupGetter__";
           "__lookupSetter__" ]%string.

Definition plainKeys (keys : list jsstring) : Prop :=
  Forall (λ k, k ∉ inheritedKeys) keys.

(** The number of jobs in a given status. *)
Definition jobsWithStatus (status : jsstring) (jobs : list Job.t) : Z :=
  Z.of_nat (length (filter (λ job, Job.status job = status) jobs)).

(** ** Sample data *)

(** An agent known only by its creation timestamp. *)
Definition agentCreated (created_at : string) : Agent.t :=
  Agent.mk [] [] 0 0 0 None (js created_at) [].

(** An agent known only by its name and on-chain balance. *)
Definition agentWithBalance (name balance : string) : Agent.t :=
  Agent.mk (js name) (js name) 0 0 0 (Some (js balance)) [] [].

Definition threeBalances : list Agent.t :=
  [agentWithBalance "a" "5"; agentWithBalance "b" ""; agentWithBalance "c" "10"].


Definition activityAt (timestamp : string) : ActivityItem.t :=
  ActivityItem.mk [] (js "job_posted") [] None (js timestamp).

(** /api/dashboard answers 500, the other two endpoints answer 200. *)
Definition serverError : Poll.Replies :=
  Poll.mkReplies
    (Poll.Fulfilled 1 (Poll.mkResponse false (inl Poll.NotAnError)))
    (Poll.Fulfilled 2 (Poll.mkResponse true (inr [])))
    (Poll.Fulfilled 3 (Poll.mkResponse true (inr []))).

(** Stats of a marketplace with three agents and no job yet. *)
Definition noJobsYet : DashboardStats.t :=
  DashboardStats.mk 3 0 0 0 0 0 0.

(** A cycle that delivers [stats], no activity list, and no agent or job. *)
Definition delivered (stats : DashboardStats.t) : Poll.Replies :=
  Poll.mkReplies
    (Poll.Fulfilled 1 (Poll.mkResponse true (inr (Poll.mkDashData stats None))))
    (Poll.Fulfilled 2 (Poll.mkResponse true (inr [])))
    (Poll.Fulfilled 3 (Poll.mkResponse true (inr []))).

(** A job known only by its status. *)
Definition jobInStatus (status : string) : Job.t :=
  Job.mk [] [] 0 (js status) None [].

(** * Properties *)

(** ** [Array.prototype.sort] *)
Section sort_facts.
Context {A : Type} (comparefn : A → A → number).

Lemma sort_insert_Permutation x l : sort_insert comparefn x l ≡ₚ x :: l.
Proof.
  induction l as [|y l IH]; simpl; [done|].
  destruct (cmp_gt _); [|done].
  rewrite IH. apply Permutation_swap.
Qed.

Lemma Array_sort_Permutation l : Array_sort comparefn l ≡ₚ l.
Proof.
  induction l as [|x l IH]; simpl; [done|].
  rewrite sort_insert_Permutation. by f_equiv.
Qed.

Lemma Array_sort_length l : length (Array_sort comparefn l) = length l.
Proof. by rewrite Array_sort_Permutation. Qed.

(** When the comparator agrees with a transitive relation [R] ("may
    stay in front of"), the result is sorted by [R]. *)
Section sorted.
Context (R : relation A) `{!Transitive R}.
Hypothesis stay : ∀ x y, cmp_gt (comparefn x y) = false → R x y.
Hypothesis move : ∀ x y, cmp_gt (comparefn x y) = true → R y x.

Lemma sort_insert_sorted x l :
  StronglySorted R l → StronglySorted R (sort_insert comparefn x l).
Proof.
  induction 1 as [|y l Hl IH Hy]; simpl.
  - repeat constructor.
  - destruct (cmp_gt (comparefn x y)) eqn:E.
    + constructor; [done|].
      rewrite sort_insert_Permutation. constructor; [by apply move|done].
    + constructor; [by constructor|].
      constructor; [by apply stay|].
      eapply Forall_impl; [exact Hy|]. intros z Hz.
      transitivity y; [by apply stay|done].
Qed.

Lemma Array_sort_sorted l : StronglySorted R (Array_sort comparefn l).
Proof.
  induction l as [|x l IH]; simpl; [constructor|].
  by apply sort_insert_sorted.
Qed.
End sorted.

(** Stability: elements that never compare greater than one another keep
    their relative order. *)
Section stable.
Context (P : A → Prop) `{!∀ x, Decision (P x)}.
Hypothesis tie : ∀ x y, P x → P y → cmp_gt (comparefn x y) = false.

Lemma sort_insert_stable x l :
  filter P (sort_insert comparefn x l) = filter P (x :: l).
Proof.
  induction l as [|y l IH]; simpl; [done|].
  destruct (cmp_gt (comparefn x y)) eqn:E; [|done].
  rewrite filter_cons, IH, !filter_cons.
  destruct (decide (P y)) as [Hy|Hy], (decide (P x)) as [Hx|Hx]; try done.
  by rewrite tie in E.
Qed.

Lemma Array_sort_stable l : filter P (Array_sort comparefn l) = filter P l.
Proof.
  induction l as [|x l IH]; simpl; [done|].
  by rewrite sort_insert_stable, !filter_cons, IH.
Qed.
End stable.
End sort_facts.

Lemma StronglySorted_weaken {A} (R R' : relation A) l :
  (∀ x y, R x y → R' x y) → StronglySorted R l → StronglySorted R' l.
Proof.
  intros HR. induction 1 as [|x l Hl IH Hx]; constructor; [done|].
  eapply Forall_impl; [exact Hx|]. intros y. apply HR.
Qed.

(** Sorting by a numeric score, largest first, as the comparators
    [(a, b) => score(b) - score(a)] do. *)
Section by_score.
Context {A : Type} (score : A → Z).

Lemma sort_descending comparefn l :
  (∀ a b, comparefn a b = Some (score b - score a)) →
  descending score (Array_sort comparefn l).
Proof.
  intros Hc. apply Array_sort_sorted.
  - intros x y z ??. lia.
  - intros x y. rewrite Hc. simpl. lia.
  - intros x y. rewrite Hc. simpl. lia.
Qed.

Lemma sort_descending_stable comparefn l k :
  (∀ a b, comparefn a b = Some (score b - score a)) →
  filter (λ a, score a = k) (Array_sort comparefn l) = filter (λ a, score a = k) l.
Proof.
  intros Hc. apply Array_sort_stable.
  intros x y Hx Hy. rewrite Hc, Hx, Hy. simpl. lia.
Qed.
End by_score.

(** A ranking is determined by the list and the score: whatever stable
    sort the engine runs, it returns this list. *)
Lemma descending_head_max {A} (score : A → Z) x (l : list A) y :
  descending score (x :: l) → y ∈ x :: l → score y ≤ score x.
Proof.
  intros [Hx _]%StronglySorted_cons [->|Hy]%elem_of_cons; [lia|].
  rewrite Forall_forall in Hx. by apply Hx.
Qed.

Lemma ranking_unique {A} (score : A → Z) (r1 r2 : list A) :
  r1 ≡ₚ r2 → descending score r1 → descending score r2 →
  (∀ k, filter (λ a, score a = k) r1 = filter (λ a, score a = k) r2) →
  r1 = r2.
Proof.
  revert r2. induction r1 as [|x r1 IH]; intros r2 Hp H1 H2 Hf.
  { by apply Permutation_nil_l in Hp. }
  destruct r2 as [|y r2]; [by apply Permutation_nil_r in Hp|].
  assert (Hxy : score x = score y).
  { assert (score x ≤ score y).
    { apply (descending_head_max score y r2); [done|]. rewrite <-Hp. left. }
    assert (score y ≤ score x); [|lia].
    apply (descending_head_max score x r1); [done|]. rewrite Hp. left. }
  pose proof (Hf (score x)) as Hk. rewrite !filter_cons in Hk.
  rewrite decide_True in Hk by done. rewrite decide_True in Hk by done.
  injection Hk as <- Hk. f_equal.
  apply StronglySorted_cons in H1 as [_ H1]. apply StronglySorted_cons in H2 as [_ H2].
  apply IH; [by apply (inj (cons x))|done..|].
  intros k. specialize (Hf k). rewrite !filter_cons in Hf.
  destruct (decide (score x = k)); [by injection Hf|done].
Qed.

Lemma rankedBy_unique {A} (score : A → Z) (l r1 r2 : list A) :
  rankedBy score l r1 → rankedBy score l r2 → r1 = r2.
Proof.
  intros (Hp1 & Hd1 & Hf1) (Hp2 & Hd2 & Hf2).
  apply (ranking_unique score); [by rewrite Hp1, Hp2|done..|].
  intros k. by rewrite Hf1, Hf2.
Qed.

(** ** The calendar *)

Lemma DayFromYear_next y : DayFromYear (y + 1) = DayFromYear y + DaysInYear y.
Proof.
  unfold DayFromYear, DaysInYear.
  repeat match goal with
         | |- context [?a =? ?b] => destruct (Z.eqb_spec a b)
         end; simpl negb; cbv iota; Z.div_mod_to_equations; lia.
Qed.

Lemma DayFromYear_mono y y' : y ≤ y' → DayFromYear y ≤ DayFromYear y'.
Proof. unfold DayFromYear. intros. Z.div_mod_to_equations. lia. Qed.

(** [YearFromDay] meets its specification: the year that contains the day. *)
Lemma YearFromDay_spec d :
  DayFromYear (YearFromDay d) ≤ d < DayFromYear (YearFromDay d + 1).
Proof.
  unfold YearFromDay.
  set (y := 1970 + 400 * d / 146097).
  assert (146097 * (y - 1970) ≤ 400 * d < 146097 * (y - 1970) + 146097).
  { unfold y. Z.div_mod_to_equations. lia. }
  clearbody y.
  assert (Hlo : DayFromYear (y - 1) ≤ d).
  { unfold DayFromYear. Z.div_mod_to_equations. lia. }
  assert (Hhi : d < DayFromYear (y + 2)).
  { unfold DayFromYear. Z.div_mod_to_equations. lia. }
  destruct (Z.leb_spec (DayFromYear (y + 1)) d).
  - replace (y + 1 + 1) with (y + 2) by lia. lia.
  - destruct (Z.leb_spec (DayFromYear y) d).
    + lia.
    + replace (y - 1 + 1) with y by lia. lia.
Qed.

Lemma InLeapYear_cases t :
  (InLeapYear t = 0 ∨ InLeapYear t = 1)
  ∧ DaysInYear (YearFromTime t) = 365 + InLeapYear t.
Proof.
  unfold InLeapYear, DaysInYear.
  repeat match goal with
         | |- context [?a =? ?b] => destruct (Z.eqb_spec a b)
         end; simpl negb in *; cbv iota in *; lia.
Qed.

Lemma DayWithinYear_range t : 0 ≤ DayWithinYear t < 365 + InLeapYear t.
Proof.
  unfold DayWithinYear.
  pose proof (YearFromDay_spec (Day t)) as Hy.
  pose proof (DayFromYear_next (YearFromTime t)) as Hn.
  destruct (InLeapYear_cases t) as [_ Hl].
  unfold YearFromTime in *. lia.
Qed.

(** Within a year, the month and the day of the month grow with the day. *)
Lemma month_order L w1 w2 :
  L = 0 ∨ L = 1 → 0 ≤ w1 < 365 + L → 0 ≤ w2 < 365 + L →
  let m1 := MonthFromDay L w1 in
  let m2 := MonthFromDay L w2 in
  0 ≤ m1 ≤ 11
  ∧ 1 ≤ w1 - MonthStart L m1 + 1 ≤ 31
  ∧ (m1 < m2 → w1 < w2)
  ∧ (m1 = m2 → w1 - MonthStart L m1 + 1 < w2 - MonthStart L m2 + 1 → w1 < w2)
  ∧ (m1 = m2 → w1 - MonthStart L m1 + 1 = w2 - MonthStart L m2 + 1 → w1 = w2).
Proof.
  intros HL H1 H2. cbv zeta. unfold MonthFromDay.
  repeat match goal with
         | |- context [?a <? ?b] => destruct (Z.ltb_spec a b)
         end; cbn [MonthStart]; lia.
Qed.

Lemma civil_ranges t :
  0 ≤ MonthFromTime t ≤ 11 ∧ 1 ≤ DateFromTime t ≤ 31.
Proof.
  destruct (InLeapYear_cases t) as [HL _].
  pose proof (DayWithinYear_range t) as Hw.
  destruct (month_order (InLeapYear t) (DayWithinYear t) (DayWithinYear t) HL Hw Hw)
    as (Hm & Hd & _).
  unfold MonthFromTime, DateFromTime. done.
Qed.

Lemma civilBefore_Day t1 t2 : civilBefore t1 t2 → Day t1 < Day t2.
Proof.
  pose proof (YearFromDay_spec (Day t1)) as Hy1.
  pose proof (YearFromDay_spec (Day t2)) as Hy2.
  intros [Hy|[Hy Hm]].
  - pose proof (DayFromYear_mono (YearFromTime t1 + 1) (YearFromTime t2)) as Hmono.
    unfold YearFromTime in *. lia.
  - destruct (InLeapYear_cases t1) as [HL _].
    pose proof (DayWithinYear_range t1) as Hw1.
    pose proof (DayWithinYear_range t2) as Hw2.
    assert (HLeq : InLeapYear t2 = InLeapYear t1) by (unfold InLeapYear; by rewrite Hy).
    rewrite HLeq in Hw2.
    destruct (month_order (InLeapYear t1) (DayWithinYear t1) (DayWithinYear t2) HL Hw1 Hw2)
      as (_ & _ & Hlt & Hsame & _).
    unfold DateFromTime, MonthFromTime in Hm. rewrite !HLeq in Hm.
    assert (DayWithinYear t1 < DayWithinYear t2).
    { cbv zeta in Hlt, Hsame. destruct Hm as [Hm|[Hm Hd]]; [by apply Hlt|by apply Hsame]. }
    unfold DayWithinYear in *. rewrite Hy in *. lia.
Qed.

Lemma civilSame_Day t1 t2 : civilSame t1 t2 → Day t1 = Day t2.
Proof.
  intros (Hy & Hm & Hd).
  destruct (InLeapYear_cases t1) as [HL _].
  pose proof (DayWithinYear_range t1) as Hw1.
  pose proof (DayWithinYear_range t2) as Hw2.
  assert (HLeq : InLeapYear t2 = InLeapYear t1) by (unfold InLeapYear; by rewrite Hy).
  rewrite HLeq in Hw2.
  destruct (month_order (InLeapYear t1) (DayWithinYear t1) (DayWithinYear t2) HL Hw1 Hw2)
    as (_ & _ & _ & _ & Heq).
  unfold DateFromTime, MonthFromTime in Hm, Hd. rewrite !HLeq in Hm, Hd.
  cbv zeta in Heq. specialize (Heq Hm Hd). unfold DayWithinYear in Heq. rewrite Hy in Heq. lia.
Qed.

(** The calendar date orders instants as their day numbers do. *)
Lemma civil_order t1 t2 :
  (civilBefore t1 t2 ↔ Day t1 < Day t2) ∧ (civilSame t1 t2 ↔ Day t1 = Day t2).
Proof.
  pose proof (civilBefore_Day t1 t2). pose proof (civilBefore_Day t2 t1).
  pose proof (civilSame_Day t1 t2).
  assert (Htri : civilBefore t1 t2 ∨ civilSame t1 t2 ∨ civilBefore t2 t1).
  { unfold civilBefore, civilSame. lia. }
  assert (Hsame : Day t1 = Day t2 → civilSame t1 t2).
  { intros Hd. unfold civilSame, DateFromTime, MonthFromTime, InLeapYear,
      DayWithinYear, YearFromTime. by rewrite Hd. }
  split; split; try done; intros ?; destruct Htri as [?|[?|?]]; try done; try lia.
  all: try (assert (Day t1 = Day t2) by auto; lia).
  all: try (assert (Day t2 < Day t1) by auto; lia).
Qed.

(** ** Comparing day keys *)

Lemma localeCompare_range a b :
  localeCompare a b = -1 ∨ localeCompare a b = 0 ∨ localeCompare a b = 1.
Proof.
  revert b. induction a as [|x a IH]; intros [|y b]; simpl; auto.
  destruct (x <? y)%N, (y <? x)%N; auto.
Qed.

Lemma localeCompare_flip a b : localeCompare b a = - localeCompare a b.
Proof.
  revert b. induction a as [|x a IH]; intros [|y b]; simpl; try done.
  destruct (N.ltb_spec x y), (N.ltb_spec y x); try done; lia.
Qed.

Lemma localeCompare_eq a b : localeCompare a b = 0 ↔ a = b.
Proof.
  revert b. induction a as [|x a IH]; intros [|y b]; simpl; try done.
  destruct (N.ltb_spec x y), (N.ltb_spec y x); try lia; try (split; [lia|intros [= ]; lia]).
  rewrite IH. split; [intros ->; f_equal; lia|by intros [= ]].
Qed.

Lemma localeCompare_trans a b c :
  localeCompare a b ≤ 0 → localeCompare b c ≤ 0 → localeCompare a c ≤ 0.
Proof.
  revert b c. induction a as [|x a IH]; intros [|y b] [|z c]; simpl; try done; try lia.
  destruct (N.ltb_spec x y), (N.ltb_spec y x), (N.ltb_spec y z), (N.ltb_spec z y),
    (N.ltb_spec x z), (N.ltb_spec z x); try lia.
  apply IH.
Qed.

Lemma pad_length w n : length (pad w n) = w.
Proof.
  revert n. induction w as [|w IH]; intros n; simpl; [done|].
  rewrite length_app, IH. simpl. lia.
Qed.

(** Zero-padded numbers of the same width compare as the numbers do. *)
Lemma localeCompare_pad w a b s1 s2 :
  0 ≤ a < 10 ^ Z.of_nat w → 0 ≤ b < 10 ^ Z.of_nat w →
  localeCompare (pad w a ++ s1) (pad w b ++ s2)
  = if a <? b then -1 else if b <? a then 1 else localeCompare s1 s2.
Proof.
  revert a b s1 s2. induction w as [|w IH]; intros a b s1 s2 Ha Hb.
  - simpl in *. assert (a = 0) as -> by lia. assert (b = 0) as -> by lia. done.
  - rewrite Nat2Z.inj_succ, Z.pow_succ_r in Ha, Hb by lia.
    cbn [pad]. rewrite <-!app_assoc.
    rewrite IH by (Z.div_mod_to_equations; lia).
    cbn [app localeCompare].
    destruct (Z.ltb_spec (a / 10) (b / 10)), (Z.ltb_spec (b / 10) (a / 10)),
      (Z.ltb_spec a b), (Z.ltb_spec b a),
      (N.ltb_spec (Z.to_N (48 + a mod 10)) (Z.to_N (48 + b mod 10))),
      (N.ltb_spec (Z.to_N (48 + b mod 10)) (Z.to_N (48 + a mod 10)));
      try done; Z.div_mod_to_equations; lia.
Qed.

Lemma isoDay_four_digit_year t :
  0 ≤ YearFromTime t ≤ 9999 →
  isoDay t = pad 4 (YearFromTime t) ++ js "-" ++ pad 2 (MonthFromTime t + 1)
             ++ js "-" ++ pad 2 (DateFromTime t).
Proof.
  intros Hy. unfold isoDay, toISOString, str_slice0.
  destruct (Z.leb_spec 0 (YearFromTime t)); [|lia].
  destruct (Z.leb_spec (YearFromTime t) 9999); [|lia].
  cbn [andb].
  rewrite !(app_assoc _ _ (js "T" ++ _)).
  rewrite take_app_length'; [done|].
  rewrite !length_app, !pad_length. done.
Qed.

(** ISO day keys with four-digit years sort as the days they name. *)
Lemma isoDay_order t1 t2 :
  0 ≤ YearFromTime t1 ≤ 9999 → 0 ≤ YearFromTime t2 ≤ 9999 →
  (localeCompare (isoDay t1) (isoDay t2) < 0 ↔ Day t1 < Day t2)
  ∧ (isoDay t1 = isoDay t2 ↔ Day t1 = Day t2).
Proof.
  intros Hy1 Hy2.
  destruct (civil_ranges t1) as [Hm1 Hd1], (civil_ranges t2) as [Hm2 Hd2].
  assert (Hcmp : localeCompare (isoDay t1) (isoDay t2)
    = if YearFromTime t1 <? YearFromTime t2 then -1
      else if YearFromTime t2 <? YearFromTime t1 then 1
      else if MonthFromTime t1 + 1 <? MonthFromTime t2 + 1 then -1
      else if MonthFromTime t2 + 1 <? MonthFromTime t1 + 1 then 1
      else if DateFromTime t1 <? DateFromTime t2 then -1
      else if DateFromTime t2 <? DateFromTime t1 then 1
      else 0).
  { rewrite !isoDay_four_digit_year by done.
    rewrite localeCompare_pad by (simpl; lia).
    change (js "-") with [45%N]. cbn [app localeCompare N.ltb N.compare Pos.compare
      Pos.compare_cont].
    rewrite localeCompare_pad by (simpl; lia).
    cbn [app localeCompare N.ltb N.compare Pos.compare Pos.compare_cont].
    rewrite <-(app_nil_r (pad 2 (DateFromTime t1))), <-(app_nil_r (pad 2 (DateFromTime t2))).
    rewrite localeCompare_pad by (simpl; lia). done. }
  destruct (civil_order t1 t2) as [Hlt Heq].
  rewrite <-Hlt, <-Heq, <-localeCompare_eq, Hcmp.
  unfold civilBefore, civilSame.
  repeat match goal with
         | |- context [?a <? ?b] => destruct (Z.ltb_spec a b)
         end; lia.
Qed.

(** ** Reward histogram *)

Lemma jobsIn_nil i : jobsIn i [] = 0.
Proof. done. Qed.

Lemma jobsIn_cons i job jobs :
  jobsIn i (job :: jobs) =
  (if decide (inBucket i (Job.reward job)) then 1 else 0) + jobsIn i jobs.
Proof.
  unfold jobsIn. rewrite filter_cons. destruct (decide _); simpl length; lia.
Qed.

Lemma rewardStep_fold jobs c0 c1 c2 c3 c4 c5 :
  foldl rewardStep
    [ Bucket.mk (js "0") c0; Bucket.mk (js "1-10K") c1; Bucket.mk (js "10K-50K") c2;
      Bucket.mk (js "50K-100K") c3; Bucket.mk (js "100K-500K") c4;
      Bucket.mk (js "500K+") c5 ] jobs
  = [ Bucket.mk (js "0") (c0 + jobsIn 0 jobs);
      Bucket.mk (js "1-10K") (c1 + jobsIn 1 jobs);
      Bucket.mk (js "10K-50K") (c2 + jobsIn 2 jobs);
      Bucket.mk (js "50K-100K") (c3 + jobsIn 3 jobs);
      Bucket.mk (js "100K-500K") (c4 + jobsIn 4 jobs);
      Bucket.mk (js "500K+") (c5 + jobsIn 5 jobs) ].
Proof.
  revert c0 c1 c2 c3 c4 c5.
  induction jobs as [|job jobs IH]; intros.
  - rewrite !jobsIn_nil, !Z.add_0_r. done.
  - rewrite !jobsIn_cons. cbn [foldl]. unfold rewardStep.
    destruct (Z.eqb_spec (Job.reward job) 0) as [H0|H0];
      [|destruct (Z.leb_spec (Job.reward job) 10000) as [H1|H1];
        [|destruct (Z.leb_spec (Job.reward job) 50000) as [H2|H2];
          [|destruct (Z.leb_spec (Job.reward job) 100000) as [H3|H3];
            [|destruct (Z.leb_spec (Job.reward job) 500000) as [H4|H4]]]]];
      cbn [bump alter list_alter Bucket.range Bucket.count];
      rewrite IH; repeat case_decide; cbn [inBucket] in *;
      try lia;
      repeat match goal with
             | |- _ :: _ = _ :: _ => apply (f_equal2 cons)
             | |- Bucket.mk _ _ = Bucket.mk _ _ => apply f_equal
             end; try done; lia.
Qed.

Lemma jobsIn_total jobs :
  jobsIn 0 jobs + jobsIn 1 jobs + jobsIn 2 jobs + jobsIn 3 jobs + jobsIn 4 jobs
  + jobsIn 5 jobs = Z.of_nat (length jobs).
Proof.
  induction jobs as [|job jobs IH]; [done|].
  rewrite !jobsIn_cons. simpl length.
  repeat case_decide; simpl in *; lia.
Qed.

Lemma inBucket_unique reward : ∃ i, inBucket i reward ∧ ∀ j, inBucket j reward → j = i.
Proof.
  destruct (decide (reward = 0)) as [->|].
  { exists 0%nat. split; [done|]. intros j. do 6 (destruct j as [|j]; simpl; try lia). }
  destruct (decide (reward ≤ 10000)).
  { exists 1%nat. split; [done|]. intros j. do 6 (destruct j as [|j]; simpl; try lia). }
  destruct (decide (reward ≤ 50000)).
  { exists 2%nat. split; [simpl; lia|]. intros j. do 6 (destruct j as [|j]; simpl; try lia). }
  destruct (decide (reward ≤ 100000)).
  { exists 3%nat. split; [simpl; lia|]. intros j. do 6 (destruct j as [|j]; simpl; try lia). }
  destruct (decide (reward ≤ 500000)).
  { exists 4%nat. split; [simpl; lia|]. intros j. do 6 (destruct j as [|j]; simpl; try lia). }
  exists 5%nat. split; [simpl; lia|]. intros j. do 6 (destruct j as [|j]; simpl; try lia).
Qed.

(** C1.  For every list of jobs, both variants chart the six buckets "0",
    "1-10K", "10K-50K", "50K-100K", "100K-500K", "500K+" in this order
    (empty ones included), bucket [i] holding the number of jobs whose reward
    lies in its range; the six counts add up to the number of jobs; every
    reward lies in exactly one range; and 0, 10000, 10001 fall in "0",
    "1-10K", "10K-50K", the upper bounds 10000, 50000, 100000, 500000 being
    inclusive. *)
Theorem C1_reward_histogram (jobs : list Job.t) :
  Tremor.rewardBuckets jobs
    = imap (λ i label, RewardBar.mk label (jobsIn i jobs)) bucketLabels
  ∧ Recharts.rewardBuckets jobs
    = imap (λ i label, Bucket.mk label (jobsIn i jobs)) bucketLabels
  ∧ foldr Z.add 0 (RewardBar.Jobs <$> Tremor.rewardBuckets jobs) = Z.of_nat (length jobs)
  ∧ foldr Z.add 0 (Bucket.count <$> Recharts.rewardBuckets jobs) = Z.of_nat (length jobs)
  ∧ (∀ job, job ∈ jobs →
       ∃ i, (i < 6)%nat ∧ inBucket i (Job.reward job)
            ∧ ∀ j, inBucket j (Job.reward job) → j = i)
  ∧ inBucket 0 0 ∧ inBucket 1 1 ∧ inBucket 1 10000 ∧ inBucket 2 10001
  ∧ inBucket 2 50000 ∧ inBucket 3 50001 ∧ inBucket 3 100000 ∧ inBucket 4 100001
  ∧ inBucket 4 500000 ∧ inBucket 5 500001.
Proof.
  assert (HR : Recharts.rewardBuckets jobs
    = imap (λ i label, Bucket.mk label (jobsIn i jobs)) bucketLabels).
  { unfold Recharts.rewardBuckets, initialBuckets. by rewrite rewardStep_fold. }
  assert (HT : Tremor.rewardBuckets jobs
    = imap (λ i label, RewardBar.mk label (jobsIn i jobs)) bucketLabels).
  { unfold Tremor.rewardBuckets, initialBuckets. by rewrite rewardStep_fold. }
  split; [done|]. split; [done|].
  split; [rewrite HT; simpl; pose proof (jobsIn_total jobs); lia|].
  split; [rewrite HR; simpl; pose proof (jobsIn_total jobs); lia|].
  split.
  { intros job _. destruct (inBucket_unique (Job.reward job)) as (i & Hi & Hu).
    exists i. split; [|done].
    do 6 (destruct i as [|i]; [lia|]). done. }
  simpl. lia.
Qed.

(** ** Keyed collections *)
Section props_facts.
Context {V : Type}.
Implicit Types (m : props V) (k : jsstring) (v : V).

Lemma str_eqb_eq k k' : str_eqb k k' = true ↔ k = k'.
Proof. unfold str_eqb. by rewrite bool_decide_eq_true. Qed.

Lemma get_set_eq k v m : get k (set k v m) = Some v.
Proof.
  induction m as [|[k' v'] m IH]; simpl.
  - unfold str_eqb. by rewrite bool_decide_eq_true_2.
  - destruct (str_eqb k k') eqn:E; simpl; rewrite E; done.
Qed.

Lemma get_set_ne k k' v m : k ≠ k' → get k' (set k v m) = get k' m.
Proof.
  intros Hne. induction m as [|[k0 v0] m IH]; simpl.
  - unfold str_eqb. by rewrite bool_decide_eq_false_2.
  - destruct (str_eqb k k0) eqn:E; simpl; [|by rewrite IH].
    apply str_eqb_eq in E as <-.
    unfold str_eqb. by rewrite bool_decide_eq_false_2.
Qed.

Lemma get_Some_elem k v m : get k m = Some v → (k, v) ∈ m.
Proof.
  induction m as [|[k' v'] m IH]; simpl; [done|].
  destruct (str_eqb k k') eqn:E.
  - apply str_eqb_eq in E as <-. intros [= <-]. left.
  - intros. right. by apply IH.
Qed.

Lemma get_None_keys k m : get k m = None ↔ k ∉ m.*1.
Proof.
  induction m as [|[k' v'] m IH]; simpl.
  - split; [intros _; apply not_elem_of_nil|done].
  - rewrite not_elem_of_cons. destruct (str_eqb k k') eqn:E.
    + apply str_eqb_eq in E. split; [done|]. intros [? _]. done.
    + rewrite IH. split; [|tauto]. intros. split; [|done].
      intros ->. unfold str_eqb in E. by rewrite bool_decide_eq_true_2 in E.
Qed.

Lemma set_keys_present k v m :
  is_Some (get k m) → (set k v m).*1 = m.*1.
Proof.
  induction m as [|[k' v'] m IH]; simpl; [by intros [? ?]|].
  destruct (str_eqb k k') eqn:E; simpl; [done|].
  intros. f_equal. by apply IH.
Qed.

Lemma set_keys_absent k v m :
  get k m = None → set k v m = m ++ [(k, v)].
Proof.
  induction m as [|[k' v'] m IH]; simpl; [done|].
  destruct (str_eqb k k') eqn:E; simpl; [done|].
  intros. by rewrite IH.
Qed.

Lemma set_NoDup k v m : NoDup m.*1 → NoDup (set k v m).*1.
Proof.
  intros Hm. destruct (get k m) as [v0|] eqn:E.
  - by rewrite set_keys_present.
  - rewrite set_keys_absent, fmap_app by done. simpl.
    apply NoDup_app. split; [done|]. split; [|apply NoDup_singleton].
    intros x Hx ->%list_elem_of_singleton. by apply get_None_keys in E.
Qed.

Lemma elem_get k v m : NoDup m.*1 → (k, v) ∈ m → get k m = Some v.
Proof.
  induction m as [|[k' v'] m IH]; simpl; [by intros _ ?%elem_of_nil|].
  intros [Hk Hm]%NoDup_cons. rewrite elem_of_cons. intros [[= <- <-]|Hin].
  - unfold str_eqb. by rewrite bool_decide_eq_true_2.
  - destruct (str_eqb k k') eqn:E; [|by apply IH].
    apply str_eqb_eq in E as <-. destruct Hk.
    apply list_elem_of_fmap. by exists (k, v).
Qed.
End props_facts.

(** ** Agents over time, src/src/App.tsx *)

Section sumBy_facts.
Context {V : Type} (f : V → Z).
Implicit Types (m : props V).

Lemma sumBy_app m m' : sumBy f (m ++ m') = sumBy f m + sumBy f m'.
Proof.
  unfold sumBy. rewrite fmap_app, foldr_app.
  generalize ((λ e : jsstring * V, f e.2) <$> m').
  generalize ((λ e : jsstring * V, f e.2) <$> m).
  intros l l'. induction l as [|x l IH]; simpl; lia.
Qed.

Lemma sumBy_set_present k v e m :
  get k m = Some e → sumBy f (set k v m) = sumBy f m - f e + f v.
Proof.
  unfold sumBy. induction m as [|[k' v'] m IH]; csimpl; [done|].
  destruct (str_eqb k k'); csimpl.
  - intros [= ->]. lia.
  - intros Hg. rewrite IH by done. lia.
Qed.

Lemma sumBy_set_absent k v m :
  get k m = None → sumBy f (set k v m) = sumBy f m + f v.
Proof.
  intros Hg. rewrite set_keys_absent, sumBy_app by done.
  unfold sumBy. simpl. lia.
Qed.

Lemma Forall_set (Q : V → Prop) k v m :
  Forall (λ e, Q e.2) m → Q v → Forall (λ e, Q e.2) (set k v m).
Proof.
  intros Hm Hv. induction Hm as [|[k' v'] m Hx Hm IH]; simpl.
  - by repeat constructor.
  - destruct (str_eqb k k'); constructor; done.
Qed.

Lemma sumBy_Permutation m m' : m ≡ₚ m' → sumBy f m = sumBy f m'.
Proof.
  unfold sumBy. induction 1; csimpl; lia.
Qed.
End sumBy_facts.

Lemma Object_entries_Permutation {V} (obj : props V) : Object_entries obj ≡ₚ obj.
Proof.
  unfold Object_entries. rewrite Array_sort_Permutation.
  induction obj as [|e obj IH]; [done|].
  rewrite !filter_cons.
  destruct (is_array_index e.1); repeat case_decide; try done; simpl.
  - by f_equiv.
  - by rewrite <-Permutation_middle, IH.
Qed.

Section agentsOverTime_facts.
Context `{Runtime}.



Lemma bucketAgent_positive buckets agent :
  Forall (λ e, 1 ≤ DayBucket.count e.2) buckets →
  Forall (λ e, 1 ≤ DayBucket.count e.2) (Tremor.bucketAgent buckets agent).
Proof.
  intros Hb. unfold Tremor.bucketAgent.
  destruct (Date_parse _) as [t|]; [|done].
  destruct (get _ buckets) as [e|] eqn:E.
  - apply (Forall_set (V:=DayBucket.t) (λ v, 1 ≤ DayBucket.count v)); [done|]. simpl.
    apply get_Some_elem in E.
    rewrite Forall_forall in Hb. specialize (Hb _ E). simpl in Hb. lia.
  - by apply (Forall_set (V:=DayBucket.t) (λ v, 1 ≤ DayBucket.count v)).
Qed.

Lemma bucketAgent_NoDup buckets agent :
  NoDup buckets.*1 → NoDup (Tremor.bucketAgent buckets agent).*1.
Proof.
  intros Hb. unfold Tremor.bucketAgent.
  destruct (Date_parse _) as [t|]; [|done].
  destruct (get _ buckets); by apply set_NoDup.
Qed.



Lemma buckets_positive buckets agents :
  Forall (λ e, 1 ≤ DayBucket.count e.2) buckets →
  Forall (λ e, 1 ≤ DayBucket.count e.2) (foldl Tremor.bucketAgent buckets agents).
Proof.
  revert buckets. induction agents as [|a agents IH]; intros; simpl; [done|].
  by apply IH, bucketAgent_positive.
Qed.

Lemma buckets_NoDup buckets agents :
  NoDup buckets.*1 → NoDup (foldl Tremor.bucketAgent buckets agents).*1.
Proof.
  revert buckets. induction agents as [|a agents IH]; intros; simpl; [done|].
  by apply IH, bucketAgent_NoDup.
Qed.



Lemma accumulate_length c sorted :
  length (Tremor.accumulate c sorted) = length sorted.
Proof.
  revert c. induction sorted as [|[k v] sorted IH]; intros c; simpl; [done|].
  by rewrite IH.
Qed.

End agentsOverTime_facts.

(** ** Agents over time in chronological order, src/src/App.tsx *)

Lemma StronglySorted_fmap_inv {A B} (f : A → B) (R : relation B) (l : list A) :
  StronglySorted R (f <$> l) → StronglySorted (λ x y, R (f x) (f y)) l.
Proof.
  induction l as [|x l IH]; csimpl; intros Hs; [constructor|].
  apply StronglySorted_cons in Hs as [Hx Hs].
  constructor; [by apply IH|]. by rewrite Forall_fmap in Hx.
Qed.

Lemma StronglySorted_strict {V} (l : props V) :
  NoDup l.*1 →
  StronglySorted (λ e1 e2, localeCompare e1.1 e2.1 ≤ 0) l →
  StronglySorted (λ e1 e2, localeCompare e1.1 e2.1 < 0) l.
Proof.
  induction 2 as [|x l Hl IH Hx]; [constructor|].
  apply NoDup_cons in H as [Hnotin Hnd].
  constructor; [by apply IH|].
  rewrite Forall_forall in Hx |- *. intros y Hy.
  specialize (Hx y Hy). simpl in Hx.
  destruct (decide (localeCompare x.1 y.1 = 0)) as [E|E]; [|lia].
  apply localeCompare_eq in E. destruct Hnotin. rewrite E.
  apply list_elem_of_fmap. by exists y.
Qed.

Lemma sort_by_key_sorted {V} (m : props V) :
  NoDup m.*1 →
  StronglySorted (λ e1 e2, localeCompare e1.1 e2.1 < 0)
    (Array_sort (λ a b, Some (localeCompare a.1 b.1)) m).
Proof.
  intros Hnd. apply StronglySorted_strict.
  - by rewrite Array_sort_Permutation.
  - apply Array_sort_sorted.
    + intros x y z. apply localeCompare_trans.
    + intros x y. simpl. lia.
    + intros x y. simpl. rewrite (localeCompare_flip x.1 y.1). lia.
Qed.

Section agentsOverTime_order.
Context `{Runtime}.

Lemma countOn_bucketAgent buckets agent k :
  countOn (Tremor.bucketAgent buckets agent) k
  = countOn buckets k + (if decide (dayKey agent = Some k) then 1 else 0).
Proof.
  unfold countOn, Tremor.bucketAgent, dayKey.
  destruct (Date_parse (Agent.created_at agent)) as [t|];
    cbn [fmap option_fmap option_map]; [|case_decide; [done|lia]].
  fold (isoDay t). destruct (decide (Some (isoDay t) = Some k)) as [[= <-]|Hne].
  - destruct (get (isoDay t) buckets) as [e|] eqn:E; rewrite get_set_eq; simpl; lia.
  - assert (isoDay t ≠ k) by congruence.
    destruct (get (isoDay t) buckets) as [e|] eqn:E; rewrite get_set_ne by done; lia.
Qed.

Lemma countOn_buckets buckets agents k :
  countOn (foldl Tremor.bucketAgent buckets agents) k
  = countOn buckets k + agentsOn k agents.
Proof.
  revert buckets. induction agents as [|a agents IH]; intros; simpl.
  - unfold agentsOn. simpl. lia.
  - rewrite IH, countOn_bucketAgent. unfold agentsOn. rewrite filter_cons.
    destruct (decide _); simpl length; lia.
Qed.

Lemma accumulate_entries c sorted :
  (λ row, (TimePoint.key row, TimePoint.count row)) <$> Tremor.accumulate c sorted
  = (λ e, (e.1, DayBucket.count e.2)) <$> sorted.
Proof.
  revert c. induction sorted as [|[k v] sorted IH]; intros c; [done|].
  cbn [Tremor.accumulate]. rewrite !fmap_cons, IH. done.
Qed.

(** Each row's [cumulative] is the sum of the counts of the rows up to it. *)
Lemma accumulate_running c sorted i row :
  Tremor.accumulate c sorted !! i = Some row →
  TimePoint.cumulative row
  = c + foldr Z.add 0 (TimePoint.count <$> take (S i) (Tremor.accumulate c sorted)).
Proof.
  revert c i. induction sorted as [|[k v] sorted IH]; intros c i; [done|].
  cbn [Tremor.accumulate]. destruct i as [|i].
  - intros [= <-]. simpl. lia.
  - intros Hrow. apply IH in Hrow. rewrite Hrow.
    cbn [take fmap list_fmap foldr TimePoint.count].
    fold (@fmap list _ _ _ TimePoint.count). lia.
Qed.

(** X17.  In App.tsx the rows are in strictly ascending order
    of their day keys; each row counts the agents of its day; every
    readable agent's day has a row; the cumulative column is the running
    sum; and, when all years have four digits, a row that comes earlier
    holds agents created on earlier days. *)
Lemma Tremor_agentsOverTime_chronological (agents : list Agent.t) :
  let out := Tremor.agentsOverTime agents in
  StronglySorted (λ r1 r2, localeCompare (TimePoint.key r1) (TimePoint.key r2) < 0) out
  ∧ (∀ row, row ∈ out →
       TimePoint.count row = agentsOn (TimePoint.key row) agents
       ∧ 1 ≤ TimePoint.count row)
  ∧ (∀ agent k, agent ∈ agents → dayKey agent = Some k → k ∈ TimePoint.key <$> out)
  ∧ (∀ i row, out !! i = Some row →
       TimePoint.cumulative row = foldr Z.add 0 (TimePoint.count <$> take (S i) out))
  ∧ ((∀ agent t, agent ∈ agents → Date_parse (Agent.created_at agent) = Some t →
        0 ≤ YearFromTime t ≤ 9999) →
     StronglySorted
       (λ r1 r2, ∀ a1 a2 t1 t2,
          a1 ∈ agents → a2 ∈ agents →
          Date_parse (Agent.created_at a1) = Some t1 →
          Date_parse (Agent.created_at a2) = Some t2 →
          isoDay t1 = TimePoint.key r1 → isoDay t2 = TimePoint.key r2 →
          Day t1 < Day t2) out).
Proof.
  cbv zeta. unfold Tremor.agentsOverTime, Map_entries.
  set (buckets := foldl Tremor.bucketAgent [] agents).
  set (sorted := Array_sort (λ a b, Some (localeCompare a.1 b.1)) buckets).
  assert (Hnd : NoDup buckets.*1) by (apply buckets_NoDup; constructor).
  assert (Hperm : sorted ≡ₚ buckets) by apply Array_sort_Permutation.
  assert (Hpos : Forall (λ e, 1 ≤ DayBucket.count e.2) buckets).
  { apply buckets_positive. constructor. }
  pose proof (accumulate_entries 0 sorted) as Hent.
  assert (Hkeys : TimePoint.key <$> Tremor.accumulate 0 sorted = sorted.*1).
  { apply (f_equal (fmap fst)) in Hent. by rewrite <-!list_fmap_compose in Hent. }
  assert (Hsorted : StronglySorted
            (λ r1 r2, localeCompare (TimePoint.key r1) (TimePoint.key r2) < 0)
            (Tremor.accumulate 0 sorted)).
  { apply (StronglySorted_fmap_inv TimePoint.key (λ k1 k2, localeCompare k1 k2 < 0)).
    rewrite Hkeys.
    eapply (StronglySorted_fmap fst); [|by apply sort_by_key_sorted].
    by intros x y. }
  split; [done|]. split; [|split; [|split]].
  - intros row Hrow.
    assert (Hin : (TimePoint.key row, TimePoint.count row)
                  ∈ (λ e, (e.1, DayBucket.count e.2)) <$> sorted).
    { rewrite <-Hent. apply list_elem_of_fmap. by exists row. }
    apply list_elem_of_fmap in Hin as ([k v] & [= Hk Hc] & Hin). simpl in *.
    rewrite Hperm in Hin. rewrite Hk, Hc.
    pose proof (countOn_buckets [] agents k) as Hcount.
    fold buckets in Hcount. unfold countOn in Hcount.
    rewrite (elem_get _ _ _ Hnd Hin) in Hcount. simpl in Hcount.
    rewrite Forall_forall in Hpos. specialize (Hpos _ Hin). simpl in Hpos.
    split; lia.
  - intros agent k Hagent Hk. rewrite Hkeys, Hperm.
    destruct (get k buckets) as [v|] eqn:E.
    { apply get_Some_elem in E. apply list_elem_of_fmap. by exists (k, v). }
    pose proof (countOn_buckets [] agents k) as Hcount.
    fold buckets in Hcount. unfold countOn in Hcount. rewrite E in Hcount.
    simpl in Hcount. unfold agentsOn in Hcount.
    assert (Hf : agent ∈ filter (λ a, dayKey a = Some k) agents).
    { by apply list_elem_of_filter. }
    destruct (filter _ agents); [by apply elem_of_nil in Hf|simpl in Hcount; lia].
  - intros i row Hrow. by rewrite (accumulate_running 0 sorted i row Hrow).
  - intros Hyears. eapply StronglySorted_weaken; [|exact Hsorted].
    intros r1 r2 Hlt a1 a2 t1 t2 Ha1 Ha2 Ht1 Ht2 Hk1 Hk2.
    destruct (isoDay_order t1 t2 (Hyears _ _ Ha1 Ht1) (Hyears _ _ Ha2 Ht2)) as [Ho _].
    apply Ho. by rewrite Hk1, Hk2.
Qed.
End agentsOverTime_order.

(** ** Agents over time, src/unnamed/part_000 *)
Section tally_facts.
Implicit Types (acc : props Z).

Lemma tally_sum acc k : sumBy id (tally acc k) = sumBy id acc + 1.
Proof.
  unfold tally. destruct (get k acc) as [n|] eqn:E; simpl.
  - erewrite sumBy_set_present by done. simpl. lia.
  - rewrite sumBy_set_absent by done. simpl. lia.
Qed.

Lemma tally_NoDup acc k : NoDup acc.*1 → NoDup (tally acc k).*1.
Proof. apply set_NoDup. Qed.

Lemma tally_fold_sum {A} (f : A → jsstring) acc (l : list A) :
  sumBy id (foldl (λ acc x, tally acc (f x)) acc l) = sumBy id acc + Z.of_nat (length l).
Proof.
  revert acc. induction l as [|x l IH]; intros; simpl; [lia|].
  rewrite IH, tally_sum. lia.
Qed.

Lemma tally_fold_NoDup {A} (f : A → jsstring) acc (l : list A) :
  NoDup acc.*1 → NoDup (foldl (λ acc x, tally acc (f x)) acc l).*1.
Proof.
  revert acc. induction l as [|x l IH]; intros; simpl; [done|].
  by apply IH, tally_NoDup.
Qed.
End tally_facts.

Section recharts_agentsOverTime_facts.
Context `{Runtime}.

Lemma recharts_accumulate_last c sorted :
  last (Recharts.TimePoint.cumulative <$> Recharts.accumulate c sorted)
  = match sorted with [] => None | _ => Some (c + sumBy id sorted) end.
Proof.
  revert c. induction sorted as [|[k v] sorted IH]; intros c; [done|].
  cbn [Recharts.accumulate fmap list_fmap].
  fold (@fmap list _ _ _ Recharts.TimePoint.cumulative).
  destruct sorted as [|e sorted].
  - unfold sumBy. simpl. f_equal. lia.
  - rewrite last_cons, IH. unfold sumBy. simpl. f_equal. lia.
Qed.

(** X18.  part_000 counts every agent, readable date or not: for a
    non-empty agent list the last row's cumulative value is the number of
    agents. *)
Lemma Recharts_agentsOverTime_counts_all (agents : list Agent.t) :
  agents ≠ [] →
  last (Recharts.TimePoint.cumulative <$> Recharts.agentsOverTime agents)
  = Some (Z.of_nat (length agents)).
Proof.
  intros Hne. unfold Recharts.agentsOverTime, Recharts.sortedDates.
  rewrite recharts_accumulate_last.
  assert (Hsum : sumBy id (Array_sort Recharts.compareDates
                   (Object_entries (Recharts.agentsByDate agents)))
                 = Z.of_nat (length agents)).
  { rewrite (sumBy_Permutation _ _ _ (Array_sort_Permutation _ _)).
    rewrite (sumBy_Permutation _ _ _ (Object_entries_Permutation _)).
    unfold Recharts.agentsByDate.
    rewrite (tally_fold_sum
      (λ agent, toLocaleDateString (Date_parse (Agent.created_at agent)))).
    unfold sumBy. simpl. lia. }
  destruct (Array_sort _ _) as [|e s]; [|by rewrite Hsum].
  unfold sumBy in Hsum. simpl in Hsum. destruct agents; [done|simpl in Hsum; lia].
Qed.
End recharts_agentsOverTime_facts.

(** C2.  On the agent list [[{created_at: "not a date"}]] the App.tsx
    variant discards the agent and charts nothing, while
    part_000 charts one point labelled "Invalid Date" with cumulative
    count 1. *)
Theorem C2_invalid_date_is_charted :
  let agents := [agentCreated "not a date"] in
  validAgents (H:=Host.utc) agents = []
  ∧ Tremor.agentsOverTime (H:=Host.utc) agents = []
  ∧ Recharts.agentsOverTime (H:=Host.utc) agents
    = [Recharts.TimePoint.mk (js "Invalid Date") 1 1].
Proof. repeat split; vm_compute; reflexivity. Qed.

(** C7.  Agents created on 2025-12-31 and 2026-01-01 (UTC noon): App.tsx charts
    2025-12-31 first; part_000 sorts the labels "Dec 31" and "Jan 1" as
    days of 2026 and charts "Jan 1" first.  Agents created on the same
    day of two different years share one point in part_000. *)
Theorem C7_recharts_not_chronological :
  let agents := [agentCreated "2025-12-31T12:00:00Z"; agentCreated "2026-01-01T12:00:00Z"] in
  let sameDay := [agentCreated "2025-01-01T12:00:00Z"; agentCreated "2026-01-01T12:00:00Z"] in
  TimePoint.key <$> Tremor.agentsOverTime (H:=Host.utc) agents
    = [js "2025-12-31"; js "2026-01-01"]
  ∧ Recharts.agentsOverTime (H:=Host.utc) agents
    = [Recharts.TimePoint.mk (js "Jan 1") 1 1; Recharts.TimePoint.mk (js "Dec 31") 1 2]
  ∧ TimePoint.key <$> Tremor.agentsOverTime (H:=Host.utc) sameDay
    = [js "2025-01-01"; js "2026-01-01"]
  ∧ Recharts.agentsOverTime (H:=Host.utc) sameDay
    = [Recharts.TimePoint.mk (js "Jan 1") 2 2].
Proof. repeat split; vm_compute; reflexivity. Qed.

(** ** Leaderboard *)

Lemma sort_insert_ext {A} (f g : A → A → number) x l :
  (∀ y, y ∈ l → f x y = g x y) → sort_insert f x l = sort_insert g x l.
Proof.
  induction l as [|y l IH]; intros Hfg; simpl; [done|].
  rewrite (Hfg y) by left. rewrite IH; [done|].
  intros z Hz. apply Hfg. by right.
Qed.

Lemma Array_sort_ext {A} (f g : A → A → number) l :
  (∀ x y, x ∈ l → y ∈ l → f x y = g x y) → Array_sort f l = Array_sort g l.
Proof.
  induction l as [|x l IH]; intros Hfg; simpl; [done|].
  rewrite IH by (intros; apply Hfg; by right).
  apply sort_insert_ext. intros y Hy. apply Hfg; [left|right].
  by rewrite Array_sort_Permutation in Hy.
Qed.



Lemma sort_rankedBy {A} (score : A → Z) comparefn (l : list A) :
  (∀ a b, a ∈ l → b ∈ l → comparefn a b = Some (score b - score a)) →
  rankedBy score l (Array_sort comparefn l).
Proof.
  intros Hc.
  rewrite (Array_sort_ext comparefn (λ a b, Some (score b - score a))) by done.
  split; [apply Array_sort_Permutation|]. split.
  - by apply sort_descending.
  - intros k. by apply sort_descending_stable.
Qed.




(** *** Balances [parseInt] cannot read *)

Lemma balance_missing_or_empty radix (agent : Agent.t) :
  radix = 10 ∨ radix = 0 →
  Agent.onChainBalance agent = None ∨ Agent.onChainBalance agent = Some [] →
  metric radix LeaderboardSort.balance agent = Some 0.
Proof.
  intros Hr Hb. unfold metric.
  destruct Hb as [-> | ->], Hr as [-> | ->]; reflexivity.
Qed.


(** C4.  With the balance key, [[{balance "abc"}, {balance "5"}]] keeps its
    order in both variants, although the same list with "0" (or the empty
    string) in place of "abc" is ranked [[{"5"}, {"0"}]]: the empty string
    counts as 0, the non-numeric string does not. *)
Theorem C4_non_numeric_balance_is_not_zero :
  let x := agentWithBalance "x" "5" in
  let y := agentWithBalance "y" "abc" in
  let y0 := agentWithBalance "y" "0" in
  let ye := agentWithBalance "y" "" in
  metric 10 LeaderboardSort.balance y = None
  ∧ metric 10 LeaderboardSort.balance ye = Some 0
  ∧ Tremor.topAgents LeaderboardSort.balance [y; x] = [y; x]
  ∧ Tremor.topAgents LeaderboardSort.balance [y0; x] = [x; y0]
  ∧ Tremor.topAgents LeaderboardSort.balance [ye; x] = [x; ye]
  ∧ Recharts.topAgents LeaderboardSort.balance [y; x] = [y; x]
  ∧ Recharts.topAgents LeaderboardSort.balance [y0; x] = [x; y0]
  ∧ Recharts.topAgents LeaderboardSort.balance [ye; x] = [x; ye].
Proof. repeat split; vm_compute; reflexivity. Qed.

(** ** Jobs by type *)


Section jobsByType_facts.
Implicit Types (acc : props Z).

Lemma countIn_tally acc k k' :
  countIn (tally acc k) k' = countIn acc k' + (if decide (k = k') then 1 else 0).
Proof.
  unfold countIn, tally. destruct (decide (k = k')) as [<-|Hne].
  - rewrite get_set_eq. simpl. done.
  - rewrite get_set_ne by done. lia.
Qed.

Lemma tally_positive acc k :
  Forall (λ e, 1 ≤ e.2) acc → Forall (λ e, 1 ≤ e.2) (tally acc k).
Proof.
  intros Hacc. apply (Forall_set (λ n, 1 ≤ n)); [done|].
  destruct (get k acc) as [n|] eqn:E; simpl; [|lia].
  apply get_Some_elem in E. rewrite Forall_forall in Hacc.
  specialize (Hacc _ E). simpl in Hacc. lia.
Qed.



End jobsByType_facts.



(** ** Activity feed *)

(** C6, as stated, fails: part_000 shows the items as received (the older
    one first here), and App.tsx leaves an earlier item in front of a later
    one when an unreadable timestamp stands between them. *)
Lemma C6_feed_not_sorted :
  let older := activityAt "2026-01-01T00:00:00Z" in
  let newer := activityAt "2026-01-02T00:00:00Z" in
  let unread := activityAt "yesterday" in
  Recharts.recentActivity [older; newer] = [older; newer]
  ∧ ¬ descending (instant (H:=Host.utc)) (Recharts.recentActivity [older; newer])
  ∧ Tremor.activityItems (H:=Host.utc) [older; unread; newer] = [older; unread; newer]
  ∧ instant (H:=Host.utc) older < instant (H:=Host.utc) newer.
Proof.
  cbv zeta. split; [reflexivity|]. split; [|split; [vm_compute; reflexivity|]].
  - unfold Recharts.recentActivity, Array_slice0. cbn [take].
    intros Hd. apply StronglySorted_cons in Hd as [Hall _].
    apply Forall_cons in Hall as [Hle _]. vm_compute in Hle. by apply Hle.
  - vm_compute. reflexivity.
Qed.

(** C6, amended.  For every list of activity items whose timestamps the
    host can read, App.tsx shows the first 12 entries of the one list that
    holds the items sorted by timestamp, latest first (equal instants in the
    order received);
    part_000 shows the first 15 items in the order received, unsorted. *)
Theorem C6_activity_feed `{Runtime} (activity : list ActivityItem.t) :
  Forall timed activity →
  (∃ ranked, rankedBy instant activity ranked
             ∧ Tremor.activityItems activity = take 12 ranked
             ∧ ∀ other, rankedBy instant activity other → other = ranked)
  ∧ length (Tremor.activityItems activity) = (length activity `min` 12)%nat
  ∧ Recharts.recentActivity activity = take 15 activity.
Proof.
  intros Ht. split; [|split; [|done]].
  - assert (Hr : rankedBy instant activity (Array_sort Tremor.compareActivity activity)).
    { apply sort_rankedBy.
      intros a b Ha Hb. rewrite Forall_forall in Ht.
      destruct (Ht a Ha) as [x Hx], (Ht b Hb) as [y Hy].
      unfold Tremor.compareActivity, instant. by rewrite Hx, Hy. }
    eexists. split; [exact Hr|]. split; [done|].
    intros other Ho. by apply (rankedBy_unique instant activity).
  - unfold Tremor.activityItems, Array_slice0.
    rewrite length_take, Array_sort_length. lia.
Qed.

Lemma C6_activity_feed_witness :
  let older := activityAt "2026-01-01T00:00:00Z" in
  let newer := activityAt "2026-01-02T00:00:00Z" in
  Forall (timed (H:=Host.utc)) [older; newer]
  ∧ ∃ ranked, rankedBy (instant (H:=Host.utc)) [older; newer] ranked
              ∧ Tremor.activityItems (H:=Host.utc) [older; newer] = take 12 ranked
              ∧ ∀ other, rankedBy (instant (H:=Host.utc)) [older; newer] other
                         → other = ranked.
Proof.
  cbv zeta.
  assert (Ht : Forall (timed (H:=Host.utc))
                 [activityAt "2026-01-01T00:00:00Z"; activityAt "2026-01-02T00:00:00Z"]).
  { repeat constructor; vm_compute; eauto. }
  split; [exact Ht|].
  exact (proj1 (C6_activity_feed (H:=Host.utc) _ Ht)).
Defined.

(** ** Re-sorting the leaderboard *)
Section store_facts.
Context {A : Type}.
Implicit Types (h : gmap nat (list A)) (l : list A).

(** [[...a].sort(comparefn).slice(0, n)] leaves every array that existed
    before, [a] included, as it was. *)
Lemma copy_sort_slice comparefn n h (a : Store.ref) l :
  h !! a = Some l →
  ∃ r h',
    Store.bind (Store.spread a) (λ copy,
      Store.bind (Store.sort comparefn copy) (λ sorted, Store.slice0 n sorted)) h
    = Some (r, h')
    ∧ h' !! r = Some (Array_slice0 n (Array_sort comparefn l))
    ∧ ∀ x, x ∈ dom h → h' !! x = h !! x.
Proof.
  intros Ha. unfold Store.bind, Store.spread, Store.sort, Store.slice0, Store.alloc.
  rewrite Ha. set (c := fresh (dom h)).
  rewrite lookup_insert_eq. rewrite insert_insert_eq.
  set (h2 := <[c := Array_sort comparefn l]> h).
  set (r := fresh (dom h2)).
  exists r, (<[r := Array_slice0 n (Array_sort comparefn l)]> h2).
  split; [unfold h2 at 1; by rewrite lookup_insert_eq|].
  split; [by rewrite lookup_insert_eq|].
  intros x Hx.
  assert (x ≠ c) by (intros ->; by apply (is_fresh (dom h))).
  assert (x ∈ dom h2) by (unfold h2; rewrite dom_insert_L; set_solver).
  assert (x ≠ r) by (intros ->; by apply (is_fresh (dom h2))).
  rewrite lookup_insert_ne by done. unfold h2. by rewrite lookup_insert_ne.
Qed.
End store_facts.

(** C8.  With the agents array [l] at a reference of the store, computing
    the leaderboard for a key [k1] and then for a key [k2] allocates the
    two leaderboards and leaves every array that existed before, the
    agents' included, with the same elements in the same order, so that the
    second leaderboard is again computed from [l]; and handling the click on
    a sort button requests no URL and changes only [leaderboardSort]. *)
Theorem C8_resort_is_pure (h : gmap nat (list Agent.t)) (agents : Store.ref)
    (l : list Agent.t) (k1 k2 : LeaderboardSort.t) (s : Poll.State) :
  h !! agents = Some l →
  (∃ r1 h1 r2 h2,
      Tremor.topAgents_store k1 agents h = Some (r1, h1)
      ∧ h1 !! r1 = Some (Tremor.topAgents k1 l)
      ∧ h1 !! agents = Some l
      ∧ Tremor.topAgents_store k2 agents h1 = Some (r2, h2)
      ∧ h2 !! r2 = Some (Tremor.topAgents k2 l)
      ∧ h2 !! agents = Some l
      ∧ ∀ x, x ∈ dom h → h2 !! x = h !! x)
  ∧ (∃ r1 h1 r2 h2,
      Recharts.topAgents_store k1 agents h = Some (r1, h1)
      ∧ h1 !! r1 = Some (Recharts.topAgents k1 l)
      ∧ h1 !! agents = Some l
      ∧ Recharts.topAgents_store k2 agents h1 = Some (r2, h2)
      ∧ h2 !! r2 = Some (Recharts.topAgents k2 l)
      ∧ h2 !! agents = Some l
      ∧ ∀ x, x ∈ dom h → h2 !! x = h !! x)
  ∧ Poll.requests (Poll.SelectSort k2) = []
  ∧ (let s' := Poll.handle (Poll.SelectSort k2) s in
     Poll.st_agents s' = Poll.st_agents s
     ∧ Poll.st_jobs s' = Poll.st_jobs s
     ∧ Poll.st_stats s' = Poll.st_stats s
     ∧ Poll.st_activity s' = Poll.st_activity s
     ∧ Poll.st_loading s' = Poll.st_loading s
     ∧ Poll.st_error s' = Poll.st_error s
     ∧ Poll.st_leaderboardSort s' = k2).
Proof.
  intros Ha.
  assert (Hdom : agents ∈ dom h) by (apply elem_of_dom; eauto).
  assert (Hgen : ∀ radix, ∃ r1 h1 r2 h2,
    Store.bind (Store.spread agents) (λ copy,
      Store.bind (Store.sort (compareAgents radix k1) copy) (λ sorted,
        Store.slice0 10 sorted)) h = Some (r1, h1)
    ∧ h1 !! r1 = Some (Array_slice0 10 (Array_sort (compareAgents radix k1) l))
    ∧ h1 !! agents = Some l
    ∧ Store.bind (Store.spread agents) (λ copy,
        Store.bind (Store.sort (compareAgents radix k2) copy) (λ sorted,
          Store.slice0 10 sorted)) h1 = Some (r2, h2)
    ∧ h2 !! r2 = Some (Array_slice0 10 (Array_sort (compareAgents radix k2) l))
    ∧ h2 !! agents = Some l
    ∧ ∀ x, x ∈ dom h → h2 !! x = h !! x).
  { intros radix.
    destruct (copy_sort_slice (compareAgents radix k1) 10 h agents l Ha)
      as (r1 & h1 & E1 & Hr1 & Hk1).
    assert (Ha1 : h1 !! agents = Some l) by (by rewrite Hk1).
    destruct (copy_sort_slice (compareAgents radix k2) 10 h1 agents l Ha1)
      as (r2 & h2 & E2 & Hr2 & Hk2).
    exists r1, h1, r2, h2. repeat (split; [done|]).
    split; [rewrite Hk2; [done|]; apply elem_of_dom; eauto|].
    intros x Hx. rewrite Hk2; [by apply Hk1|].
    apply elem_of_dom. rewrite Hk1 by done. by apply elem_of_dom. }
  split; [exact (Hgen 10)|]. split; [exact (Hgen 0)|]. done.
Qed.

Lemma C8_resort_is_pure_witness :
  let h : gmap nat (list Agent.t) := {[ 0%nat := threeBalances ]} in
  h !! 0%nat = Some threeBalances
  ∧ Poll.requests (Poll.SelectSort LeaderboardSort.balance) = []
  ∧ ∃ r1 h1 r2 h2,
      Tremor.topAgents_store LeaderboardSort.jobs 0%nat h = Some (r1, h1)
      ∧ h1 !! r1 = Some (Tremor.topAgents LeaderboardSort.jobs threeBalances)
      ∧ h1 !! 0%nat = Some threeBalances
      ∧ Tremor.topAgents_store LeaderboardSort.balance 0%nat h1 = Some (r2, h2)
      ∧ h2 !! r2 = Some (Tremor.topAgents LeaderboardSort.balance threeBalances)
      ∧ h2 !! 0%nat = Some threeBalances
      ∧ ∀ x, x ∈ dom h → h2 !! x = h !! x.
Proof.
  cbv zeta.
  assert (Ha : ({[ 0%nat := threeBalances ]} : gmap nat (list Agent.t)) !! 0%nat
               = Some threeBalances) by apply lookup_singleton_eq.
  pose proof (C8_resort_is_pure _ 0%nat threeBalances LeaderboardSort.jobs
                LeaderboardSort.balance Poll.initial Ha) as (HT & _ & Hreq & _).
  split; [exact Ha|]. split; [exact Hreq|exact HT].
Defined.

(** ** A failed poll cycle *)








(** ** Completion rate *)

(** App.tsx never divides by zero: the rate is always a finite number, 0
    when there are no jobs (or no stats yet) and otherwise
    completedJobs / totalJobs * 100. *)
Lemma Tremor_completionRate (stats : option DashboardStats.t) :
  let totalJobs := default 0 (DashboardStats.totalJobs <$> stats) in
  let completedJobs := default 0 (DashboardStats.completedJobs <$> stats) in
  ∃ q, Tremor.completionRateValue stats = Float.Finite q
       ∧ (totalJobs = 0 → q = 0%Q)
       ∧ (0 < totalJobs →
            (q == inject_Z completedJobs / inject_Z totalJobs * inject_Z 100)%Q).
Proof.
  cbv zeta. unfold Tremor.completionRateValue.
  destruct (Z.ltb_spec 0 (default 0 (DashboardStats.totalJobs <$> stats))) as [Hpos|Hle].
  - unfold Float.div. destruct (Z.eqb_spec (default 0 (DashboardStats.totalJobs <$> stats)) 0);
      [lia|].
    eexists. split; [reflexivity|]. split; [lia|]. intros _. reflexivity.
  - exists 0%Q. split; [reflexivity|]. split; [done|lia].
Qed.

Lemma Tremor_completionCard_no_jobs (stats : option DashboardStats.t) :
  default 0 (DashboardStats.totalJobs <$> stats) = 0 →
  Tremor.completionCard stats = js "0.0%".
Proof.
  intros H0. unfold Tremor.completionCard, Tremor.completionRateValue.
  rewrite H0. reflexivity.
Qed.

(** X19.  part_000 with [totalJobs = 0]: whatever the other counts, the
    rate shown is "NaN", "Infinity" or "-Infinity", never a percentage. *)
Lemma Recharts_completionRate_no_jobs (stats : DashboardStats.t) :
  DashboardStats.totalJobs stats = 0 →
  Recharts.completionRate (Some stats) = js "NaN"
  ∨ Recharts.completionRate (Some stats) = js "Infinity"
  ∨ Recharts.completionRate (Some stats) = js "-Infinity".
Proof.
  intros H0. unfold Recharts.completionRate, Float.div. rewrite H0.
  cbn [Z.eqb]. destruct (DashboardStats.completedJobs stats =? 0); [by left|].
  destruct (0 <? DashboardStats.completedJobs stats); [right; by left|right; by right].
Qed.

(** C10.  On a stats snapshot with [totalJobs = 0] (and so
    [completedJobs = 0]) part_000 computes 0 / 0 and shows "NaN%", where
    App.tsx shows "0.0%". *)
Theorem C10_recharts_divides_by_zero :
  Recharts.completionRate (Some noJobsYet) = js "NaN"
  ∧ Recharts.completionCard (Some noJobsYet) = js "NaN%"
  ∧ Tremor.completionRateValue (Some noJobsYet) = Float.of_Z 0
  ∧ Tremor.completionCard (Some noJobsYet) = js "0.0%".
Proof. repeat split; vm_compute; reflexivity. Qed.

(** * The rest of the two files

    What follows is about the code the properties above do not reach: the
    formatting helpers, the job-status view-models, the count-up hook of
    App.tsx, and the poll loop across several cycles. *)

(** ** Labels *)


Lemma tickFormatter_short (label : jsstring) (max : Z) :
  str_length label ≤ max → tickFormatter label max = label.
Proof.
  unfold tickFormatter, str_length. intros Hl. destruct label as [|c l]; [done|].
  cbn [truthy negb]. destruct (Z.ltb_spec max (Z.of_nat (length (c :: l)))); [lia|done].
Qed.

Lemma tickFormatter_long (label : jsstring) (max : Z) :
  0 ≤ max → max < str_length label →
  tickFormatter label max = take (Z.to_nat max) label ++ [8230%N].
Proof.
  unfold tickFormatter, str_length, str_slice0. intros Hmax Hl.
  destruct label as [|c l]; [simpl in Hl; lia|].
  cbn [truthy negb]. destruct (Z.ltb_spec max (Z.of_nat (length (c :: l)))); [done|lia].
Qed.

(** X1.  [tickFormatter(label, max)] with [max >= 0] returns at most
    [max + 1] code units: a label of at most [max] units unchanged, a
    longer one cut to its first [max] units plus an ellipsis; formatting
    the result again changes nothing. *)
Theorem X1_tickFormatter_bounded (label : jsstring) (max : Z) :
  0 ≤ max →
  (length (tickFormatter label max) ≤ Z.to_nat max + 1)%nat
  ∧ (str_length label ≤ max → tickFormatter label max = label)
  ∧ (max < str_length label →
       tickFormatter label max = take (Z.to_nat max) label ++ [8230%N])
  ∧ tickFormatter (tickFormatter label max) max = tickFormatter label max.
Proof.
  intros Hmax.
  split; [|split; [apply tickFormatter_short|split; [by apply tickFormatter_long|]]].
  - destruct (Z.le_gt_cases (str_length label) max) as [Hl|Hl].
    + rewrite tickFormatter_short by done. unfold str_length in Hl. lia.
    + rewrite tickFormatter_long by lia. rewrite length_app, length_take. simpl. lia.
  - destruct (Z.le_gt_cases (str_length label) max) as [Hl|Hl].
    + rewrite (tickFormatter_short label) by done. by apply tickFormatter_short.
    + rewrite (tickFormatter_long label) by lia.
      assert (Hlen : length (take (Z.to_nat max) label) = Z.to_nat max).
      { rewrite length_take. unfold str_length in Hl. lia. }
      rewrite tickFormatter_long.
      * by rewrite take_app_length' by done.
      * done.
      * unfold str_length. rewrite length_app, Hlen. simpl. lia.
Qed.

Lemma X1_tickFormatter_bounded_witness :
  0 ≤ 3
  ∧ tickFormatter (js "research") 3 = js "res" ++ [8230%N]
  ∧ tickFormatter (tickFormatter (js "research") 3) 3 = js "res" ++ [8230%N].
Proof.
  assert (H : 0 ≤ 3) by lia.
  destruct (X1_tickFormatter_bounded (js "research") 3 H) as (_ & _ & Hlong & Hidem).
  split; [exact H|]. split.
  - apply Hlong. vm_compute. reflexivity.
  - rewrite Hidem. apply Hlong. vm_compute. reflexivity.
Defined.


(** X2.  [Tremor.formatStatus] keeps the length of the status, turns every
    underscore into a space and leaves the other code units as they are:
    no underscore is left, a status without underscore is unchanged, and
    formatting twice is formatting once. *)
Theorem X2_formatStatus (status : jsstring) :
  length (Tremor.formatStatus status) = length status
  ∧ (∀ i c, status !! i = Some c →
       Tremor.formatStatus status !! i = Some (if (c =? 95)%N then 32%N else c))
  ∧ (95%N ∉ Tremor.formatStatus status)
  ∧ (95%N ∉ status → Tremor.formatStatus status = status)
  ∧ Tremor.formatStatus (Tremor.formatStatus status) = Tremor.formatStatus status.
Proof.
  unfold Tremor.formatStatus. split; [by rewrite length_fmap|]. split; [|split; [|split]].
  - intros i c Hc. by rewrite list_lookup_fmap, Hc.
  - intros Hin. apply list_elem_of_fmap in Hin as (c & Hc & _).
    destruct (N.eqb_spec c 95); [done|lia].
  - induction status as [|c status IH]; [done|].
    intros [Hc Hs]%not_elem_of_cons. csimpl. rewrite IH by done.
    destruct (N.eqb_spec c 95); [congruence|done].
  - rewrite <-list_fmap_compose. apply list_fmap_ext. intros _ c _. simpl.
    destruct (N.eqb_spec c 95); [done|]. by destruct (N.eqb_spec c 95).
Qed.

(** ** Job status *)

Lemma tally_fold_positive {A} (f : A → jsstring) (l : list A) acc :
  Forall (λ e, 1 ≤ e.2) acc →
  Forall (λ e, 1 ≤ e.2) (foldl (λ acc x, tally acc (f x)) acc l).
Proof.
  revert acc. induction l as [|x l IH]; intros acc Hacc; simpl; [done|].
  by apply IH, tally_positive.
Qed.

Lemma tally_fold_count {A} (f : A → jsstring) (l : list A) acc k :
  countIn (foldl (λ acc x, tally acc (f x)) acc l) k
  = countIn acc k + Z.of_nat (length (filter (λ x, f x = k) l)).
Proof.
  revert acc. induction l as [|x l IH]; intros acc; simpl; [lia|].
  rewrite IH, countIn_tally, filter_cons. destruct (decide _); simpl length; lia.
Qed.

(** Tallying a list by a key: one property per key that occurs, holding
    the number of elements with that key. *)
Lemma tally_by_spec {A} (f : A → jsstring) (l : list A) :
  let m := foldl (λ acc x, tally acc (f x)) [] l in
  NoDup m.*1
  ∧ (∀ k n, (k, n) ∈ m →
       n = Z.of_nat (length (filter (λ x, f x = k) l)) ∧ 1 ≤ n)
  ∧ (∀ k, k ∈ m.*1 ↔ k ∈ f <$> l).
Proof.
  cbv zeta.
  pose proof (λ acc k, tally_fold_count f l acc k) as Hcount.
  pose proof (tally_fold_positive f l) as Hpos.
  assert (Hnd : NoDup (foldl (λ acc x, tally acc (f x)) [] l).*1).
  { apply (tally_fold_NoDup f). constructor. }
  specialize (Hpos [] (Forall_nil_2 _)).
  assert (Hin : ∀ k n, (k, n) ∈ foldl (λ acc x, tally acc (f x)) [] l →
    n = Z.of_nat (length (filter (λ x, f x = k) l)) ∧ 1 ≤ n).
  { intros k n Hkn. split.
    - specialize (Hcount [] k). unfold countIn in Hcount.
      rewrite (elem_get _ _ _ Hnd Hkn) in Hcount. simpl in Hcount. lia.
    - rewrite Forall_forall in Hpos. apply (Hpos _ Hkn). }
  split; [done|]. split; [done|].
  intros k. split.
  - intros ([k' n] & -> & Hkn)%list_elem_of_fmap. simpl.
    destruct (Hin _ _ Hkn) as [Hn Hge].
    destruct (filter (λ x, f x = k') l) as [|x xs] eqn:E; [simpl in Hn; lia|].
    assert (Hx : x ∈ filter (λ x, f x = k') l) by (rewrite E; left).
    apply list_elem_of_filter in Hx as [<- Hx]. apply list_elem_of_fmap. by exists x.
  - intros (x & -> & Hx)%list_elem_of_fmap.
    destruct (get (f x) (foldl (λ acc x, tally acc (f x)) [] l)) as [n|] eqn:E.
    { apply get_Some_elem in E. apply list_elem_of_fmap. by exists (f x, n). }
    specialize (Hcount [] (f x)). unfold countIn in Hcount. rewrite E in Hcount.
    simpl in Hcount.
    assert (Hf : x ∈ filter (λ y, f y = f x) l) by (by apply list_elem_of_filter).
    destruct (filter _ l); [by apply elem_of_nil in Hf|simpl in Hcount; lia].
Qed.

Lemma sum_Permutation (l l' : list Z) :
  l ≡ₚ l' → foldr Z.add 0 l = foldr Z.add 0 l'.
Proof. induction 1; simpl; lia. Qed.

(** X3.  As long as no status is the name of a member of
    [Object.prototype], [statusData] of App.tsx has one row for every
    status that occurs among the jobs, largest count first, holding the
    number of jobs in that status (at least 1, so a status without jobs
    has no row) under the status with its underscores turned into spaces;
    nothing is cut off, and the counts add up to the number of jobs. *)
Theorem X3_statusData (jobs : list Job.t) :
  plainKeys (Job.status <$> jobs) →
  let rows := Tremor.statusData jobs in
  descending Tremor.StatusRow.value rows
  ∧ foldr Z.add 0 (Tremor.StatusRow.value <$> rows) = Z.of_nat (length jobs)
  ∧ length rows = length (remove_dups (Job.status <$> jobs))
  ∧ (∀ row, row ∈ rows →
       ∃ status, Tremor.StatusRow.name row = Tremor.formatStatus status
                 ∧ Tremor.StatusRow.value row = jobsWithStatus status jobs
                 ∧ 1 ≤ Tremor.StatusRow.value row)
  ∧ (∀ job, job ∈ jobs →
       Tremor.StatusRow.mk (Tremor.formatStatus (Job.status job)) (jobsWithStatus (Job.status job) jobs)
       ∈ rows).
Proof.
  intros _. cbv zeta. unfold Tremor.statusData.
  set (toRow := λ '(status, count), Tremor.StatusRow.mk (Tremor.formatStatus status) count).
  set (cmp := λ a b, Some (Tremor.StatusRow.value b - Tremor.StatusRow.value a)).
  destruct (tally_by_spec Job.status jobs) as (Hnd & Hcnt & Hkeys).
  fold (Tremor.jobsByStatus jobs) in Hnd, Hcnt, Hkeys.
  pose proof (Object_entries_Permutation (Tremor.jobsByStatus jobs)) as He.
  pose proof (Array_sort_Permutation cmp (toRow <$> Object_entries (Tremor.jobsByStatus jobs))) as Hs.
  split; [by apply sort_descending|]. split; [|split; [|split]].
  - rewrite (sum_Permutation _ (Tremor.StatusRow.value <$> (toRow <$> Tremor.jobsByStatus jobs)))
      by (by rewrite Hs, He).
    rewrite <-list_fmap_compose.
    pose proof (tally_fold_sum Job.status [] jobs) as Hsum.
    fold (Tremor.jobsByStatus jobs) in Hsum.
    transitivity (sumBy id (Tremor.jobsByStatus jobs)).
    + unfold sumBy. f_equal. apply list_fmap_ext. by intros ? [??] ?.
    + rewrite Hsum. unfold sumBy. simpl. lia.
  - rewrite Hs, length_fmap, He, <-(length_fmap fst).
    apply Permutation_length, NoDup_Permutation; [done|apply NoDup_remove_dups|].
    intros k. rewrite Hkeys. by rewrite elem_of_remove_dups.
  - intros row Hrow. rewrite Hs in Hrow.
    apply list_elem_of_fmap in Hrow as ([k n] & -> & Hin). rewrite He in Hin.
    destruct (Hcnt _ _ Hin) as [-> Hge]. by exists k.
  - intros job Hjob. rewrite Hs.
    assert (Hk : Job.status job ∈ (Tremor.jobsByStatus jobs).*1).
    { apply Hkeys, list_elem_of_fmap. by exists job. }
    apply list_elem_of_fmap in Hk as ([k n] & Hk & Hin). simpl in Hk. subst k.
    destruct (Hcnt _ _ Hin) as [Hn _].
    apply list_elem_of_fmap. exists (Job.status job, n). split.
    + simpl. unfold jobsWithStatus. by rewrite Hn.
    + by rewrite He.
Qed.

Lemma X3_statusData_witness :
  let jobs := [jobInStatus "open"; jobInStatus "in_progress"; jobInStatus "open"] in
  plainKeys (Job.status <$> jobs)
  ∧ Tremor.statusData jobs
    = [Tremor.StatusRow.mk (js "open") 2; Tremor.StatusRow.mk (js "in progress") 1]
  ∧ foldr Z.add 0 (Tremor.StatusRow.value <$> Tremor.statusData jobs) = 3.
Proof.
  cbv zeta.
  assert (H : plainKeys (Job.status
                <$> [jobInStatus "open"; jobInStatus "in_progress"; jobInStatus "open"])).
  { unfold plainKeys. apply (bool_decide_unpack _). vm_compute. exact I. }
  split; [exact H|]. split; [vm_compute; reflexivity|].
  exact (proj1 (proj2 (X3_statusData _ H))).
Defined.

(** X11.  As long as no status is the name of a member of
    [Object.prototype], the "Completion Rates" list of part_000 has one
    bar for every status that occurs among the jobs and no other, each
    with the number of jobs in that status, between 1 and the number of
    jobs; the counts add up to the number of jobs; and the percentage of a
    bar is the [toFixed(1)] form of a finite number, since a bar exists
    only when [jobs.length] is not 0. *)
Theorem X11_Recharts_statusLines (jobs : list Job.t) :
  plainKeys (Job.status <$> jobs) →
  let lines := Recharts.statusLines jobs in
  NoDup (Recharts.StatusLine.status <$> lines)
  ∧ (∀ job, job ∈ jobs → Job.status job ∈ Recharts.StatusLine.status <$> lines)
  ∧ foldr Z.add 0 (Recharts.StatusLine.count <$> lines) = Z.of_nat (length jobs)
  ∧ (∀ line, line ∈ lines →
       Recharts.StatusLine.count line
       = jobsWithStatus (Recharts.StatusLine.status line) jobs
       ∧ 1 ≤ Recharts.StatusLine.count line ≤ Z.of_nat (length jobs)
       ∧ ∃ q, Recharts.StatusLine.percent line = Float.toFixed1 (Float.Finite q)).
Proof.
  intros _. cbv zeta. unfold Recharts.statusLines.
  destruct (tally_by_spec Job.status jobs) as (Hnd & Hcnt & Hkeys).
  fold (Recharts.jobsByStatus jobs) in Hnd, Hcnt, Hkeys.
  pose proof (Object_entries_Permutation (Recharts.jobsByStatus jobs)) as He.
  set (toLine := λ '(status, count), Recharts.StatusLine.mk status count _ _).
  assert (Hst : Recharts.StatusLine.status <$> (toLine <$> Object_entries (Recharts.jobsByStatus jobs))
                = (Object_entries (Recharts.jobsByStatus jobs)).*1).
  { rewrite <- list_fmap_compose. apply list_fmap_ext. by intros ? [??] ?. }
  assert (Hct : Recharts.StatusLine.count <$> (toLine <$> Object_entries (Recharts.jobsByStatus jobs))
                = (Object_entries (Recharts.jobsByStatus jobs)).*2).
  { rewrite <- list_fmap_compose. apply list_fmap_ext. by intros ? [??] ?. }
  split; [by rewrite Hst, He|]. split; [|split].
  - intros job Hjob. rewrite Hst, He. apply Hkeys, list_elem_of_fmap. by exists job.
  - rewrite Hct, (sum_Permutation _ (Recharts.jobsByStatus jobs).*2) by (by rewrite He).
    pose proof (tally_fold_sum Job.status [] jobs) as Hsum.
    fold (Recharts.jobsByStatus jobs) in Hsum. unfold sumBy in Hsum. simpl in Hsum.
    rewrite Z.add_0_l in Hsum. exact Hsum.
  - intros line Hline.
    apply list_elem_of_fmap in Hline as ([k n] & -> & Hin). rewrite He in Hin.
    destruct (Hcnt _ _ Hin) as [Hn Hge]. cbn [toLine Recharts.StatusLine.count
      Recharts.StatusLine.status Recharts.StatusLine.percent].
    assert (length (filter (λ x, Job.status x = k) jobs) ≤ length jobs)%nat
      by apply length_filter.
    split; [done|]. split; [lia|].
    unfold Double.of_Z, Double.div, Double.mul.
    destruct (Z.eqb_spec (Z.of_nat (length jobs)) 0) as [H0|_]; [lia|].
    by eexists.
Qed.

Lemma X11_Recharts_statusLines_witness :
  let jobs := [jobInStatus "open"; jobInStatus "verified"; jobInStatus "open"] in
  plainKeys (Job.status <$> jobs)
  ∧ Recharts.statusLines jobs
    = [ Recharts.StatusLine.mk (js "open") 2 (js "66.7") (js "#6366f1");
        Recharts.StatusLine.mk (js "verified") 1 (js "33.3") (js "#10b981") ]
  ∧ NoDup (Recharts.StatusLine.status <$> Recharts.statusLines jobs).
Proof.
  cbv zeta.
  assert (H : plainKeys (Job.status
                <$> [jobInStatus "open"; jobInStatus "verified"; jobInStatus "open"])).
  { unfold plainKeys. apply (bool_decide_unpack _). vm_compute. exact I. }
  split; [exact H|]. split; [vm_compute; reflexivity|].
  exact (proj1 (X11_Recharts_statusLines _ H)).
Defined.

(** ** The poll loop over several cycles *)

Lemma fetchData_cases (r : Poll.Replies) (s : Poll.State) :
  match payload r with
  | Some (d, a, j) =>
      Poll.fetchData r s
      = Poll.mkState (Some (Poll.stats d)) a j (default [] (Poll.activity d)) false
          (Poll.st_error s) (Poll.st_leaderboardSort s)
  | None => ∃ e, Poll.fetchData r s = Poll.catch e s
  end.
Proof.
  unfold payload, Poll.fetchData, Poll.Promise_all.
  destruct (Poll.dashboard r) as [td [[] [ed|d]]|td ed],
    (Poll.agents r) as [ta [[] [ea|a]]|ta ea],
    (Poll.jobs r) as [tj [[] [ej|j]]|tj ej]; simpl;
    repeat match goal with
           | |- context [(?x <? ?y)%nat] => destruct (x <? y)%nat
           end; simpl; eauto.
Qed.

Lemma fetchData_loading (r : Poll.Replies) (s : Poll.State) :
  Poll.st_loading (Poll.fetchData r s) = false.
Proof.
  pose proof (fetchData_cases r s) as H.
  destruct (payload r) as [[[d a] j]|]; [by rewrite H|].
  by destruct H as [e ->].
Qed.

(** X4.  A poll cycle is all or nothing.  When the three fetches are
    fulfilled with an [ok] status and parse, the stats, agents, jobs and
    activity snapshots are replaced by the bodies (a missing activity list
    reading as empty) and the error is left as it was; in every other case
    the four snapshots keep their values and an error message is set.
    Either way [loading] is off and the sort key is kept. *)
Theorem X4_poll_all_or_nothing (r : Poll.Replies) (s : Poll.State) :
  let s' := Poll.fetchData r s in
  Poll.st_loading s' = false
  ∧ Poll.st_leaderboardSort s' = Poll.st_leaderboardSort s
  ∧ match payload r with
    | Some (d, a, j) =>
        Poll.st_stats s' = Some (Poll.stats d)
        ∧ Poll.st_agents s' = a
        ∧ Poll.st_jobs s' = j
        ∧ Poll.st_activity s' = default [] (Poll.activity d)
        ∧ Poll.st_error s' = Poll.st_error s
    | None =>
        Poll.st_stats s' = Poll.st_stats s
        ∧ Poll.st_agents s' = Poll.st_agents s
        ∧ Poll.st_jobs s' = Poll.st_jobs s
        ∧ Poll.st_activity s' = Poll.st_activity s
        ∧ is_Some (Poll.st_error s')
    end.
Proof.
  cbv zeta. pose proof (fetchData_cases r s) as H.
  destruct (payload r) as [[[d a] j]|].
  - rewrite H. done.
  - destruct H as [e ->]. unfold Poll.catch. simpl. eauto 10.
Qed.

Lemma run_app events1 events2 s : run (events1 ++ events2) s = run events2 (run events1 s).
Proof. unfold run. by rewrite foldl_app. Qed.

(** X5.  An error is never cleared: once a cycle has failed with a
    non-empty message, the following events, as long as every poll cycle
    among them delivers its bodies, leave that message in place, and the
    component keeps rendering the error view, whatever data arrives. *)
Theorem X5_error_is_sticky (events : list Poll.event) (s : Poll.State)
    (message : jsstring) :
  Poll.st_error s = Some message → message ≠ [] → Poll.st_loading s = false →
  allDelivered events →
  Poll.st_error (run events s) = Some message
  ∧ Poll.render (run events s) = Poll.ErrorView message.
Proof.
  intros Herr Hne Hload Hall.
  assert (Hinv : Poll.st_error (run events s) = Some message
                 ∧ Poll.st_loading (run events s) = false).
  { revert s Herr Hload. induction Hall as [|e events He Hall IH]; intros s Herr Hload.
    - done.
    - cbn [run foldl]. apply IH.
      + destruct e as [r|k]; [|done]. simpl.
        pose proof (fetchData_cases r s) as Hc.
        destruct He as [[[d a] j] Hp]. rewrite Hp in Hc. by rewrite Hc.
      + destruct e as [r|k]; [|done]. simpl.
        apply fetchData_loading. }
  destruct Hinv as [He Hl]. split; [done|].
  unfold Poll.render. rewrite Hl, He. by destruct message.
Qed.

Lemma X5_error_is_sticky_witness :
  let s := Poll.fetchData serverError Poll.initial in
  let events := [Poll.Tick (delivered noJobsYet); Poll.SelectSort LeaderboardSort.balance] in
  Poll.st_error (run events s) = Some (js "Failed to fetch data")
  ∧ Poll.render (run events s) = Poll.ErrorView (js "Failed to fetch data").
Proof.
  cbv zeta. apply X5_error_is_sticky.
  - reflexivity.
  - discriminate.
  - reflexivity.
  - repeat constructor. by eexists.
Defined.

Lemma handle_loading (e : Poll.event) (s : Poll.State) :
  Poll.st_loading s = false → Poll.st_loading (Poll.handle e s) = false.
Proof. destruct e as [r|k]; [intros _; apply fetchData_loading|done]. Qed.

Lemma handle_error (e : Poll.event) (s : Poll.State) :
  is_Some (Poll.st_error s) → is_Some (Poll.st_error (Poll.handle e s)).
Proof.
  destruct e as [r|k]; [|done]. simpl. intros Hs.
  pose proof (fetchData_cases r s) as Hc.
  destruct (payload r) as [[[d a] j]|]; [by rewrite Hc|].
  destruct Hc as [e ->]. by eexists.
Qed.

(** X6.  The loading view and the absence of an error are both lost for
    good: no event turns [loading] back on, the first poll cycle turns it
    off however it ends, so that the loading view is not rendered again
    whatever follows, and no event resets a set error to [null]. *)
Theorem X6_no_way_back (events : list Poll.event) (s : Poll.State) :
  (Poll.st_loading s = false → Poll.st_loading (run events s) = false)
  ∧ (∀ r, Poll.st_loading (run (Poll.Tick r :: events) s) = false
          ∧ Poll.render (run (Poll.Tick r :: events) s) ≠ Poll.LoadingView)
  ∧ (is_Some (Poll.st_error s) → is_Some (Poll.st_error (run events s))).
Proof.
  assert (Hload : ∀ events s,
            Poll.st_loading s = false → Poll.st_loading (run events s) = false).
  { clear. intros events. induction events as [|e events IH]; intros s Hs; [done|].
    cbn [run foldl]. by apply IH, handle_loading. }
  split; [apply Hload|]. split.
  - intros r.
    assert (Poll.st_loading (run (Poll.Tick r :: events) s) = false) as Hl.
    { cbn [run foldl]. apply Hload. simpl. apply fetchData_loading. }
    split; [done|]. unfold Poll.render. rewrite Hl.
    by destruct (Poll.st_error _) as [m|]; [destruct (truthy m)|].
  - revert s. induction events as [|e events IH]; intros s Hs; [done|].
    cbn [run foldl]. by apply IH, handle_error.
Qed.

(** X7.  While no cycle has failed, a cycle that delivers its three bodies
    makes the component render the dashboard on exactly those bodies (an
    absent activity list as the empty one), under the sort key in force;
    from the initial state, which renders the loading skeleton, this is
    the dashboard sorted by completed jobs. *)
Theorem X7_delivered_cycle_is_rendered (r : Poll.Replies) (s : Poll.State)
    (d : Poll.DashData) (a : list Agent.t) (j : list Job.t) :
  payload r = Some (d, a, j) → Poll.st_error s = None →
  Poll.render (Poll.fetchData r s)
  = Poll.DashboardView
      (Poll.mkState (Some (Poll.stats d)) a j (default [] (Poll.activity d))
         false None (Poll.st_leaderboardSort s))
  ∧ Poll.render Poll.initial = Poll.LoadingView
  ∧ Poll.st_leaderboardSort Poll.initial = LeaderboardSort.jobs.
Proof.
  intros Hp He. pose proof (fetchData_cases r s) as Hc. rewrite Hp in Hc.
  rewrite Hc, He. done.
Qed.

Lemma X7_delivered_cycle_is_rendered_witness :
  Poll.render (Poll.fetchData (delivered noJobsYet) Poll.initial)
  = Poll.DashboardView
      (Poll.mkState (Some noJobsYet) [] [] [] false None LeaderboardSort.jobs)
  ∧ Poll.render Poll.initial = Poll.LoadingView
  ∧ Poll.st_leaderboardSort Poll.initial = LeaderboardSort.jobs.
Proof.
  apply (X7_delivered_cycle_is_rendered (delivered noJobsYet) Poll.initial
           (Poll.mkDashData noJobsYet None) [] []); reflexivity.
Defined.

(** ** What rounding to a double keeps *)

Section double_facts.
Local Open Scope Q_scope.

Lemma pow2_pos k : 0 < Double.pow2 k.
Proof. apply Qpower_0_lt. reflexivity. Qed.

Lemma pow2_add a b : Double.pow2 (a + b) == Double.pow2 a * Double.pow2 b.
Proof. apply Qpower_plus. discriminate. Qed.

Lemma pow2_ge_1 k : (0 <= k)%Z → 1 <= Double.pow2 k.
Proof. intros Hk. apply Qpower_1_le; [discriminate | done]. Qed.

Lemma pow2_le a b : (a <= b)%Z → Double.pow2 a <= Double.pow2 b.
Proof.
  intros Hab. replace b with (a + (b - a))%Z by lia. rewrite pow2_add.
  pose proof (pow2_pos a) as Ha. pose proof (pow2_ge_1 (b - a) ltac:(lia)) as Hb.
  assert (0 <= Double.pow2 a * (Double.pow2 (b - a) - 1)) by (apply Qmult_le_0_compat; lra).
  lra.
Qed.

Lemma nearest_even_close x : Qabs (inject_Z (Double.nearest_even x) - x) <= 1 # 2.
Proof.
  unfold Double.nearest_even. cbv zeta.
  pose proof (Qfloor_le x) as Hlo. pose proof (Qlt_floor x) as Hhi.
  rewrite inject_Z_plus in Hhi. change (inject_Z 1) with 1 in Hhi.
  apply Qabs_Qle_condition.
  destruct (Qcompare_spec (x - inject_Z (Qfloor x)) (1 # 2)) as [Heq | Hlt | Hgt].
  - destruct (Z.even (Qfloor x)); rewrite ?inject_Z_plus; change (inject_Z 1) with 1; lra.
  - lra.
  - rewrite inject_Z_plus. change (inject_Z 1) with 1. lra.
Qed.

(** Rounding moves a number by at most half a unit in the last place. *)
Lemma round_close q :
  Qabs (Double.round q - q) <= Double.pow2 (Double.exponent (Qabs q) - 53).
Proof.
  unfold Double.round. destruct (Qeq_bool q 0) eqn:Hz.
  - apply Qeq_bool_iff in Hz. pose proof (pow2_pos (Double.exponent (Qabs q) - 53)).
    apply Qabs_Qle_condition. lra.
  - cbv zeta. set (e := Double.exponent (Qabs q)).
    set (m := Double.nearest_even (Qabs q * Double.pow2 (52 - e))).
    rewrite Qred_correct.
    pose proof (nearest_even_close (Qabs q * Double.pow2 (52 - e))) as Hm. fold m in Hm.
    apply Qabs_Qle_condition in Hm.
    pose proof (pow2_pos (e - 52)) as Hp. pose proof (pow2_pos (52 - e)) as Hp'.
    assert (Double.pow2 (52 - e) * Double.pow2 (e - 52) == 1) as Hinv.
    { rewrite <- pow2_add. by replace (52 - e + (e - 52))%Z with 0%Z by lia. }
    assert (Double.pow2 (e - 53) == (1 # 2) * Double.pow2 (e - 52)) as ->.
    { replace (e - 53)%Z with (-1 + (e - 52))%Z by lia. by rewrite pow2_add. }
    assert (q * Double.pow2 (52 - e) * Double.pow2 (e - 52) == q) as Hq.
    { rewrite <- Qmult_assoc, Hinv. ring. }
    apply Qabs_Qle_condition.
    destruct (Z.ltb_spec (Qnum q) 0) as [Hneg | Hpos].
    + assert (Qabs q == - q) as Ha.
      { apply Qabs_neg. destruct q as [n d]. unfold Qle. simpl in *. lia. }
      rewrite Ha in Hm.
      assert (0 <= (inject_Z m - - q * Double.pow2 (52 - e) + (1 # 2)) * Double.pow2 (e - 52))
        by (apply Qmult_le_0_compat; lra).
      assert (0 <= ((1 # 2) - (inject_Z m - - q * Double.pow2 (52 - e))) * Double.pow2 (e - 52))
        by (apply Qmult_le_0_compat; lra).
      lra.
    + assert (Qabs q == q) as Ha.
      { apply Qabs_pos. destruct q as [n d]. unfold Qle. simpl in *. lia. }
      rewrite Ha in Hm.
      assert (0 <= (inject_Z m - q * Double.pow2 (52 - e) + (1 # 2)) * Double.pow2 (e - 52))
        by (apply Qmult_le_0_compat; lra).
      assert (0 <= ((1 # 2) - (inject_Z m - q * Double.pow2 (52 - e))) * Double.pow2 (e - 52))
        by (apply Qmult_le_0_compat; lra).
      lra.
Qed.

Lemma exponent_below_1024 a : 0 < a → a < 1024 → (Double.exponent a <= 9)%Z.
Proof.
  intros Hpos Hlt. unfold Double.exponent. cbv zeta.
  set (e0 := (Z.log2 (Qnum a) - Z.log2 (Z.pos (Qden a)))%Z).
  assert (e0 <= 10)%Z as He0.
  { subst e0. destruct a as [n d]. unfold Qlt in Hlt. cbn [Qnum Qden] in *.
    assert (n < Z.pos d * 2 ^ 10)%Z as Hn by lia.
    pose proof (Z.log2_le_mono n (Z.pos d * 2 ^ 10)%Z ltac:(lia)) as Hlog.
    rewrite Z.log2_mul_pow2 in Hlog by lia. lia. }
  destruct (Qle_bool (Double.pow2 e0) a) eqn:Hle; [| lia].
  apply Qle_bool_iff in Hle.
  destruct (decide (e0 = 10%Z)) as [He | ?]; [| lia].
  rewrite He in Hle. change (Double.pow2 10) with (1024 # 1) in Hle. lra.
Qed.

Lemma Qfloor_eq x z : inject_Z z <= x → x < inject_Z (z + 1) → Qfloor x = z.
Proof.
  intros Hlo Hhi.
  pose proof (Qfloor_le x) as Hlo'. pose proof (Qlt_floor x) as Hhi'.
  assert (inject_Z (Qfloor x) < inject_Z (z + 1)) as H1 by lra.
  assert (inject_Z z < inject_Z (Qfloor x + 1)) as H2 by lra.
  rewrite <- Zlt_Qlt in H1, H2. lia.
Qed.

(** Every quotient from just above 999.95 up to 1000 is printed as 1000.0. *)
Lemma toFixed1_rolls_over q :
  (99995 # 100) + (1 # 1000000000) <= q → q < 1000 →
  Float.toFixed1 (Float.Finite (Double.round q)) = js "1000.0".
Proof.
  intros Hlo Hhi.
  pose proof (round_close q) as Hc.
  assert (Qabs q == q) as Ha by (apply Qabs_pos; lra).
  assert (Double.exponent (Qabs q) <= 9)%Z as He.
  { apply exponent_below_1024; lra. }
  pose proof (pow2_le (Double.exponent (Qabs q) - 53) (-44) ltac:(lia)) as Hp.
  change (Double.pow2 (-44)) with (1 # 17592186044416) in Hp.
  apply Qabs_Qle_condition in Hc.
  set (x := Double.round q) in *.
  assert (99995 # 100 <= x ∧ x < 100005 # 100) as [Hx1 Hx2] by (split; lra).
  assert (Qabs x == x) as Hax by (apply Qabs_pos; lra).
  unfold Float.toFixed1. cbv zeta.
  assert (Qfloor (Qabs x * inject_Z 10 + (1 # 2)) = 10000%Z) as ->.
  { apply Qfloor_eq; rewrite Hax; change (inject_Z 10) with (10 # 1);
      [change (inject_Z 10000) with (10000 # 1) | change (inject_Z (10000 + 1)) with (10001 # 1)];
      lra. }
  destruct (Z.ltb_spec (Qnum x) 0) as [Hneg | _]; [| done].
  exfalso. destruct x as [n d]. unfold Qle in Hx1. simpl in *. lia.
Qed.
End double_facts.

Section double_sign.
Local Open Scope Q_scope.

Lemma pow2_nonneg_Z k : (0 <= k)%Z → Double.pow2 k == inject_Z (2 ^ k).
Proof. intros Hk. unfold Double.pow2. by rewrite Zpower_Qpower. Qed.

(** The exponent chosen is not above the number's. *)
Lemma exponent_lower a : 0 < a → Double.pow2 (Double.exponent a) <= a.
Proof.
  intros Hpos. unfold Double.exponent. cbv zeta.
  set (e0 := (Z.log2 (Qnum a) - Z.log2 (Z.pos (Qden a)))%Z).
  destruct (Qle_bool (Double.pow2 e0) a) eqn:Hle; [by apply Qle_bool_iff|].
  subst e0. destruct a as [n d]. unfold Qlt in Hpos. cbn [Qnum Qden] in *.
  assert (0 < n)%Z as Hn by lia. clear Hle Hpos.
  pose proof (Z.log2_nonneg n) as Hln. pose proof (Z.log2_nonneg (Z.pos d)) as Hld.
  replace (Z.log2 n - Z.log2 (Z.pos d) - 1)%Z
    with (Z.log2 n + - (Z.log2 (Z.pos d) + 1))%Z by lia.
  rewrite pow2_add. unfold Double.pow2 at 2. rewrite Qpower_opp.
  fold (Double.pow2 (Z.log2 (Z.pos d) + 1)).
  rewrite !pow2_nonneg_Z by lia.
  destruct (Z.log2_spec n Hn) as [Hn1 _].
  destruct (Z.log2_spec (Z.pos d) ltac:(lia)) as [_ Hd2].
  rewrite <- Z.add_1_r in Hd2.
  set (A := (2 ^ Z.log2 n)%Z) in *. set (B := (2 ^ (Z.log2 (Z.pos d) + 1))%Z) in *.
  assert (0 < A)%Z by (apply Z.pow_pos_nonneg; lia).
  apply Qle_shift_div_r.
  - change 0 with (inject_Z 0). rewrite <- Zlt_Qlt. lia.
  - unfold Qle, Qmult, inject_Z. cbn [Qnum Qden]. nia.
Qed.

(** ... and not below it: [2^e <= a < 2^(e+1)], so the significand has
    53 bits. *)
Lemma exponent_upper a : 0 < a → a < Double.pow2 (Double.exponent a + 1).
Proof.
  intros Hpos. unfold Double.exponent. cbv zeta.
  set (e0 := (Z.log2 (Qnum a) - Z.log2 (Z.pos (Qden a)))%Z).
  destruct (Qle_bool (Double.pow2 e0) a) eqn:Hle.
  - subst e0. destruct a as [n d]. unfold Qlt in Hpos. cbn [Qnum Qden] in *.
    assert (0 < n)%Z as Hn by lia. clear Hle Hpos.
    pose proof (Z.log2_nonneg n) as Hln. pose proof (Z.log2_nonneg (Z.pos d)) as Hld.
    replace (Z.log2 n - Z.log2 (Z.pos d) + 1)%Z
      with ((Z.log2 n + 1) + - Z.log2 (Z.pos d))%Z by lia.
    rewrite pow2_add. unfold Double.pow2 at 2. rewrite Qpower_opp.
    fold (Double.pow2 (Z.log2 (Z.pos d))).
    rewrite !pow2_nonneg_Z by lia.
    destruct (Z.log2_spec n Hn) as [_ Hn2].
    destruct (Z.log2_spec (Z.pos d) ltac:(lia)) as [Hd1 _].
    rewrite <- Z.add_1_r in Hn2.
    set (A := (2 ^ (Z.log2 n + 1))%Z) in *. set (B := (2 ^ Z.log2 (Z.pos d))%Z) in *.
    assert (0 < B)%Z by (apply Z.pow_pos_nonneg; lia).
    apply Qlt_shift_div_l.
    + change 0 with (inject_Z 0). rewrite <- Zlt_Qlt. lia.
    + unfold Qlt, Qmult, inject_Z. cbn [Qnum Qden]. nia.
  - replace (e0 - 1 + 1)%Z with e0 by lia.
    apply Qnot_le_lt. rewrite <- Qle_bool_iff. congruence.
Qed.

Lemma nearest_even_floor x : (Qfloor x <= Double.nearest_even x)%Z.
Proof.
  unfold Double.nearest_even. cbv zeta.
  destruct (Qcompare _ _); [destruct (Z.even _)| |]; lia.
Qed.

(** The significand of a non-zero number is positive. *)
Lemma significand_pos a :
  0 < a → (0 < Double.nearest_even (a * Double.pow2 (52 - Double.exponent a)))%Z.
Proof.
  intros Hpos. pose proof (exponent_lower a Hpos) as He.
  set (e := Double.exponent a) in *.
  pose proof (pow2_pos (52 - e)) as Hp.
  assert (Double.pow2 52 <= a * Double.pow2 (52 - e)) as Hs.
  { replace 52%Z with (e + (52 - e))%Z at 1 by lia. rewrite pow2_add.
    assert (0 <= (a - Double.pow2 e) * Double.pow2 (52 - e))
      by (apply Qmult_le_0_compat; lra).
    lra. }
  pose proof (Qfloor_resp_le _ _ Hs) as Hf.
  change (Qfloor (Double.pow2 52)) with 4503599627370496%Z in Hf.
  pose proof (nearest_even_floor (a * Double.pow2 (52 - e))). lia.
Qed.

Lemma Qabs_opp_eq q : Qabs (- q) = Qabs q.
Proof. destruct q as [n d]. unfold Qabs, Qopp. cbn [Qnum Qden]. by rewrite Z.abs_opp. Qed.

Lemma Qnum_neg q : (Qnum q <? 0)%Z = true ↔ q < 0.
Proof. destruct q as [n d]. unfold Qlt. cbn [Qnum Qden]. rewrite Z.ltb_lt. lia. Qed.

Lemma Qnum_nonneg q : (Qnum q <? 0)%Z = false ↔ 0 <= q.
Proof. destruct q as [n d]. unfold Qle. cbn [Qnum Qden]. rewrite Z.ltb_ge. lia. Qed.

Lemma round_pos q : 0 < q → 0 < Double.round q.
Proof.
  intros Hpos. unfold Double.round.
  destruct (Qeq_bool q 0) eqn:Hz; [apply Qeq_bool_iff in Hz; lra|].
  cbv zeta. rewrite Qred_correct.
  assert (Qabs q == q) as Ha by (apply Qabs_pos; lra).
  assert (0 < Qabs q) as Hapos by lra.
  pose proof (significand_pos (Qabs q) Hapos) as Hm.
  set (m := Double.nearest_even _) in *.
  pose proof (pow2_pos (Double.exponent (Qabs q) - 52)) as Hp.
  destruct (Z.ltb_spec (Qnum q) 0) as [Hneg | _].
  { exfalso. destruct q as [n d]. unfold Qlt in Hpos. cbn [Qnum Qden] in *. lia. }
  assert (0 < inject_Z m) as Hm'.
  { change 0 with (inject_Z 0). by rewrite <- Zlt_Qlt. }
  assert (0 < inject_Z m * Double.pow2 (Double.exponent (Qabs q) - 52))
    by (apply Qmult_lt_0_compat; lra).
  lra.
Qed.

(** Rounding commutes with negation. *)
Lemma round_opp q : Double.round (- q) == - Double.round q.
Proof.
  unfold Double.round.
  assert (Qeq_bool (- q) 0 = Qeq_bool q 0) as ->.
  { destruct q as [n d]. unfold Qeq_bool, Qopp. cbn [Qnum Qden].
    destruct (Z.eqb_spec (- n * Z.pos 1) (0 * Z.pos d)),
      (Z.eqb_spec (n * Z.pos 1) (0 * Z.pos d)); try done; lia. }
  destruct (Qeq_bool q 0) eqn:Hz; [reflexivity|].
  cbv zeta. rewrite Qabs_opp_eq, !Qred_correct.
  set (m := inject_Z (Double.nearest_even _)). set (P := Double.pow2 _).
  assert (¬ q == 0) as Hq.
  { intros Hq. apply Qeq_bool_iff in Hq. congruence. }
  destruct (Z.ltb_spec (Qnum q) 0) as [Hneg | Hpos];
    destruct (Z.ltb_spec (Qnum (- q)) 0) as [Hneg' | Hpos'].
  - exfalso. destruct q as [n d]. cbn [Qnum Qden Qopp] in *. lia.
  - ring.
  - ring.
  - exfalso. apply Hq. destruct q as [n d]. unfold Qeq. cbn [Qnum Qden Qopp] in *. lia.
Qed.

(** [toFixed(1)] prints a negative number as the minus sign and the digits
    of its absolute value. *)
Lemma toFixed1_opp x y :
  0 < x → y == - x →
  Float.toFixed1 (Float.Finite y) = js "-" ++ Float.toFixed1 (Float.Finite x).
Proof.
  intros Hx Hy. unfold Float.toFixed1. cbv zeta.
  assert (Qabs y * inject_Z 10 + (1 # 2) == Qabs x * inject_Z 10 + (1 # 2)) as Habs.
  { rewrite Hy, Qabs_opp. reflexivity. }
  rewrite (Qfloor_comp _ _ Habs).
  assert ((Qnum y <? 0)%Z = true) as -> by (apply Qnum_neg; lra).
  assert ((Qnum x <? 0)%Z = false) as -> by (apply Qnum_nonneg; lra).
  reflexivity.
Qed.
End double_sign.

Section toFixed1_accuracy.
Local Open Scope Q_scope.

Lemma exponent_below a k :
  (0 <= k)%Z → 0 < a → a < Double.pow2 k → (Double.exponent a <= k - 1)%Z.
Proof.
  intros Hk Hpos Hlt. unfold Double.exponent. cbv zeta.
  set (e0 := (Z.log2 (Qnum a) - Z.log2 (Z.pos (Qden a)))%Z).
  assert (e0 <= k)%Z as He0.
  { subst e0. rewrite pow2_nonneg_Z in Hlt by done.
    destruct a as [n d]. unfold Qlt in Hlt, Hpos. cbn [Qnum Qden inject_Z] in *.
    assert (n < Z.pos d * 2 ^ k)%Z as Hn by lia.
    pose proof (Z.log2_le_mono n (Z.pos d * 2 ^ k)%Z ltac:(lia)) as Hlog.
    rewrite Z.log2_mul_pow2 in Hlog by lia. lia. }
  destruct (Qle_bool (Double.pow2 e0) a) eqn:Hle; [|lia].
  apply Qle_bool_iff in Hle.
  destruct (decide (e0 = k)) as [He | ?]; [|lia].
  rewrite He in Hle. lra.
Qed.

(** [toFixed(1)] of a rounded quotient [n / (10 * D)] prints a tenth
    nearest to the exact quotient, as long as half a unit in the last place
    of the quotient, taken [10 * D] times, stays below 1. *)
Lemma toFixed1_nearest (n D' k : Z) :
  (0 < n)%Z → (0 < D')%Z → (0 <= k)%Z →
  inject_Z n / inject_Z (20 * D') < Double.pow2 k →
  Double.pow2 (k - 54) * inject_Z (20 * D') < 1 →
  ∃ N : Z,
    (0 <= N)%Z
    ∧ Float.toFixed1 (Float.Finite (Double.round (inject_Z n / inject_Z (20 * D'))))
      = Float.decimal (N / 10) ++ js "." ++ Float.decimal (N mod 10)
    ∧ (Z.abs (n - N * (2 * D')) <= D')%Z.
Proof.
  intros Hn HD Hk Hq Heps.
  set (u := inject_Z (20 * D')) in *.
  assert (0 < u) as Hu.
  { subst u. change 0 with (inject_Z 0). rewrite <- Zlt_Qlt. lia. }
  assert (0 < inject_Z n) as Hn'.
  { change 0 with (inject_Z 0). by rewrite <- Zlt_Qlt. }
  set (q := inject_Z n / u) in *.
  assert (0 < q) as Hqpos by (subst q; apply Qlt_shift_div_l; lra).
  assert (q * u == inject_Z n) as Hqu by (subst q; field; lra).
  pose proof (round_close q) as Hc. pose proof (round_pos q Hqpos) as Hxpos.
  assert (Qabs q == q) as Ha by (apply Qabs_pos; lra).
  assert (Double.exponent (Qabs q) <= k - 1)%Z as He.
  { apply exponent_below; [done| |]; rewrite Ha; done. }
  pose proof (pow2_le (Double.exponent (Qabs q) - 53) (k - 54) ltac:(lia)) as Hp.
  apply Qabs_Qle_condition in Hc.
  set (x := Double.round q) in *. set (eps := Double.pow2 (k - 54)) in *.
  assert (Qabs x == x) as Hax by (apply Qabs_pos; lra).
  unfold Float.toFixed1. cbv zeta.
  assert ((Qnum x <? 0)%Z = false) as -> by (apply Qnum_nonneg; lra).
  set (N := Qfloor (Qabs x * inject_Z 10 + (1 # 2))).
  pose proof (Qfloor_le (Qabs x * inject_Z 10 + (1 # 2))) as HN1.
  pose proof (Qlt_floor (Qabs x * inject_Z 10 + (1 # 2))) as HN2.
  fold N in HN1, HN2. rewrite inject_Z_plus in HN2.
  change (inject_Z 1) with 1 in HN2. change (inject_Z 10) with 10 in *.
  rewrite Hax in HN1, HN2.
  exists N. split.
  { assert (inject_Z 0 < inject_Z (N + 1)) as H0.
    { rewrite inject_Z_plus. change (inject_Z 1) with 1. change (inject_Z 0) with 0. lra. }
    rewrite <- Zlt_Qlt in H0. lia. }
  split; [done|].
  (* the two bounds, scaled by the unit *)
  assert (0 <= (10 * q + 10 * eps + (1 # 2) - inject_Z N) * u) as H1
    by (apply Qmult_le_0_compat; lra).
  assert (0 <= (inject_Z N + (1 # 2) + 10 * eps - 10 * q) * u) as H2
    by (apply Qmult_le_0_compat; lra).
  assert (u == 20 * inject_Z D') as Hu20.
  { subst u. rewrite inject_Z_mult. reflexivity. }
  assert (inject_Z (N * (2 * D') - D') < inject_Z (n + 1)) as Hlo.
  { unfold Z.sub. rewrite !inject_Z_plus, inject_Z_opp, !inject_Z_mult.
    change (inject_Z 2) with 2. change (inject_Z 1) with 1.
    assert (inject_Z N * u == 20 * (inject_Z N * inject_Z D')) as HNu by (rewrite Hu20; ring).
    lra. }
  assert (inject_Z (n - 1) < inject_Z (N * (2 * D') + D')) as Hhi.
  { unfold Z.sub. rewrite !inject_Z_plus, inject_Z_opp, !inject_Z_mult.
    change (inject_Z 2) with 2. change (inject_Z 1) with 1.
    assert (inject_Z N * u == 20 * (inject_Z N * inject_Z D')) as HNu by (rewrite Hu20; ring).
    lra. }
  rewrite <- Zlt_Qlt in Hlo, Hhi. lia.
Qed.
End toFixed1_accuracy.

(** ** [formatNumber] *)

Section formatNumber_facts.
Context `{NumberFormat}.
Local Open Scope Q_scope.

Lemma Qle_bool_false x y : Qle_bool x y = false ↔ y < x.
Proof.
  split.
  - intros E. apply Qnot_le_lt. rewrite <- Qle_bool_iff. congruence.
  - intros Hlt. destruct (Qle_bool x y) eqn:E; [|done].
    apply Qle_bool_iff in E. lra.
Qed.

Lemma Qabs_nonneg_eq q : 0 <= q → Qabs q = q.
Proof.
  destruct q as [n d]. unfold Qle, Qabs. cbn [Qnum Qden]. intros Hn.
  f_equal. apply Z.abs_eq. lia.
Qed.

(** Which unit [formatNumber] of App.tsx picks. *)
Lemma Tremor_formatNumber_unit q :
  Tremor.formatNumber (Float.Finite q)
  = if Qle_bool 1000000000 (Qabs q)
    then Float.toFixed1 (Float.Finite (Double.round (q / 1000000000))) ++ js "B"
    else if Qle_bool 1000000 (Qabs q)
    then Float.toFixed1 (Float.Finite (Double.round (q / 1000000))) ++ js "M"
    else if Qle_bool 1000 (Qabs q)
    then Float.toFixed1 (Float.Finite (Double.round (q / 1000))) ++ js "K"
    else Number_toLocaleString q.
Proof. reflexivity. Qed.

Lemma Recharts_formatNumber_unit q :
  Recharts.formatNumber (Float.Finite q)
  = if Qle_bool 1000000000 q
    then Float.toFixed1 (Float.Finite (Double.round (q / 1000000000))) ++ js "B"
    else if Qle_bool 1000000 q
    then Float.toFixed1 (Float.Finite (Double.round (q / 1000000))) ++ js "M"
    else if Qle_bool 1000 q
    then Float.toFixed1 (Float.Finite (Double.round (q / 1000))) ++ js "K"
    else Number_digits q.
Proof. reflexivity. Qed.

(** From 1000 on the two variants format alike. *)
Lemma formatNumber_agree q :
  1000 <= q → Tremor.formatNumber (Float.Finite q) = Recharts.formatNumber (Float.Finite q).
Proof.
  intros Hq. rewrite Tremor_formatNumber_unit, Recharts_formatNumber_unit.
  rewrite Qabs_nonneg_eq by lra.
  destruct (Qle_bool 1000000000 q); [done|].
  destruct (Qle_bool 1000000 q); [done|].
  destruct (Qle_bool 1000 q) eqn:E; [done|].
  apply Qle_bool_false in E. lra.
Qed.

(** X8.  A balance that [parseInt] cannot read is shown as "0" in the
    leaderboard of App.tsx, whose [formatNumber] guards against [NaN],
    and as "NaN" in the leaderboard of part_000, whose [formatNumber]
    lets [NaN] fall through every comparison to [toString]. *)
Theorem X8_unreadable_balance_cell (agent : Agent.t) :
  (metric 10 LeaderboardSort.balance agent = None → Tremor.balanceCell agent = js "0")
  ∧ (metric 0 LeaderboardSort.balance agent = None
     → Recharts.balanceCell agent = js "NaN").
Proof.
  unfold metric, Tremor.balanceCell, Recharts.balanceCell.
  split; intros ->; reflexivity.
Qed.

(** X9.  The two [formatNumber]s print a number from 1000 on alike, but
    differ on negative numbers: part_000 compares the number itself with
    the units, so a number below 1000, and every negative one, is printed
    by [toString] in full, while App.tsx compares the absolute value, so
    a number down from -1000 is printed as the minus sign followed by
    what is printed for its absolute value. *)
Theorem X9_formatNumber_variants (q : Q) :
  (1000 <= q → Tremor.formatNumber (Float.Finite q) = Recharts.formatNumber (Float.Finite q))
  ∧ (q < 1000 → Recharts.formatNumber (Float.Finite q) = Number_toString (Float.Finite q))
  ∧ (q <= -1000 →
       Tremor.formatNumber (Float.Finite q)
       = js "-" ++ Tremor.formatNumber (Float.Finite (- q))).
Proof.
  split; [|split].
  - apply formatNumber_agree.
  - intros Hq. rewrite Recharts_formatNumber_unit.
    rewrite !(proj2 (Qle_bool_false _ _)) by lra. done.
  - intros Hq. rewrite !Tremor_formatNumber_unit, Qabs_opp_eq.
    assert (0 < - q) as Hpos by lra.
    assert (∀ k : Q, 0 < k →
              Float.toFixed1 (Float.Finite (Double.round (q / k)))
              = js "-" ++ Float.toFixed1 (Float.Finite (Double.round (- q / k)))) as Hk.
    { intros k Hk. apply toFixed1_opp.
      - apply round_pos. apply Qlt_shift_div_l; lra.
      - rewrite <- round_opp.
        assert (q / k = - (- q / k)) as ->; [|reflexivity].
        unfold Qdiv. destruct (/ k) as [a b], q as [n d].
        unfold Qmult, Qopp. cbn [Qnum Qden]. f_equal. lia. }
    assert (1000 <= Qabs q) as Habs.
    { rewrite <- (Qabs_opp q), Qabs_pos by lra. lra. }
    destruct (Qle_bool 1000000000 (Qabs q)); [by rewrite Hk|].
    destruct (Qle_bool 1000000 (Qabs q)); [by rewrite Hk|].
    destruct (Qle_bool 1000 (Qabs q)) eqn:E; [by rewrite Hk|].
    apply Qle_bool_false in E. lra.
Qed.

Lemma inject_Z_le_const (k n : Z) : (k ≤ n)%Z → inject_Z k <= inject_Z n.
Proof. by rewrite <- Zle_Qle. Qed.

(** X10.  A count just below the next unit is printed with the lower
    unit and four digits: from 999950 up to 999999 both variants print
    "1000.0K", not "1.0M", and from 999950000 up to 999999999 they print
    "1000.0M", because the unit is chosen before [toFixed(1)] rounds the
    quotient up. *)
Theorem X10_formatNumber_rolls_over (n unit : Z) (suffix : jsstring) :
  (unit, suffix) ∈ [(1000, js "K"); (1000000, js "M")]%Z →
  (99995 * unit ≤ 100 * n)%Z → (n < 1000 * unit)%Z →
  Tremor.formatNumber (Float.of_Z n) = js "1000.0" ++ suffix
  ∧ Recharts.formatNumber (Float.of_Z n) = js "1000.0" ++ suffix.
Proof.
  intros Hunit Hlo Hhi. unfold Float.of_Z.
  assert (Recharts.formatNumber (Float.Finite (inject_Z n)) = js "1000.0" ++ suffix) as HR.
  { rewrite Recharts_formatNumber_unit.
    apply elem_of_cons in Hunit as [[= -> ->] | Hunit];
      [|apply elem_of_cons in Hunit as [[= -> ->] | Hunit]; [|by apply elem_of_nil in Hunit]].
    - pose proof (inject_Z_le_const 999950 n ltac:(lia)) as H1.
      pose proof (inject_Z_le_const n 999999 ltac:(lia)) as H2.
      change (inject_Z 999950) with 999950 in H1. change (inject_Z 999999) with 999999 in H2.
      rewrite !(proj2 (Qle_bool_false _ (inject_Z n))) by lra.
      rewrite (proj2 (Qle_bool_iff 1000 (inject_Z n))) by lra.
      destruct (decide (n = 999950%Z)) as [-> | Hne]; [vm_compute; reflexivity|].
      pose proof (inject_Z_le_const 999951 n ltac:(lia)) as H3.
      change (inject_Z 999951) with 999951 in H3.
      rewrite toFixed1_rolls_over; [done| |].
      + apply Qle_shift_div_l; lra.
      + apply Qlt_shift_div_r; lra.
    - pose proof (inject_Z_le_const 999950000 n ltac:(lia)) as H1.
      pose proof (inject_Z_le_const n 999999999 ltac:(lia)) as H2.
      change (inject_Z 999950000) with 999950000 in H1.
      change (inject_Z 999999999) with 999999999 in H2.
      rewrite (proj2 (Qle_bool_false _ (inject_Z n))) by lra.
      rewrite (proj2 (Qle_bool_iff 1000000 (inject_Z n))) by lra.
      destruct (decide (n = 999950000%Z)) as [-> | Hne]; [vm_compute; reflexivity|].
      pose proof (inject_Z_le_const 999950001 n ltac:(lia)) as H3.
      change (inject_Z 999950001) with 999950001 in H3.
      rewrite toFixed1_rolls_over; [done| |].
      + apply Qle_shift_div_l; lra.
      + apply Qlt_shift_div_r; lra. }
  split; [|done]. rewrite <- HR.
  apply formatNumber_agree.
  assert (1000 ≤ n)%Z as Hn.
  { repeat (apply elem_of_cons in Hunit as [[= -> ->] | Hunit]); [lia | lia |].
    by apply elem_of_nil in Hunit. }
  apply (inject_Z_le_const 1000 n Hn).
Qed.

(** X21.  An integer count from 1000 up to 2^53 is printed by both
    variants as a figure with one decimal and the unit K (below 10^6), M
    (below 10^9) or B (from 10^9 on), and the figure is a tenth of the
    unit nearest to the count: what is printed differs from the count by
    at most a twentieth of the unit.  (Where two tenths are equally near,
    either may be printed: the quotient is rounded to a double first.) *)
Theorem X21_formatNumber_nearest_tenth (n unit limit : Z) (suffix : jsstring) :
  (unit, limit, suffix)
    ∈ [ (1000, 1000000, js "K"); (1000000, 1000000000, js "M");
        (1000000000, 2 ^ 53 + 1, js "B") ]%Z →
  (unit ≤ n < limit)%Z →
  ∃ N : Z,
    (0 ≤ N)%Z
    ∧ Tremor.formatNumber (Float.of_Z n)
      = Float.decimal (N / 10) ++ js "." ++ Float.decimal (N mod 10) ++ suffix
    ∧ Recharts.formatNumber (Float.of_Z n)
      = Float.decimal (N / 10) ++ js "." ++ Float.decimal (N mod 10) ++ suffix
    ∧ (2 * Z.abs (10 * n - N * unit) ≤ unit)%Z.
Proof.
  intros Hunit Hn. unfold Float.of_Z.
  assert (1000 <= inject_Z n) as Hpos.
  { apply (inject_Z_le_const 1000 n).
    repeat (apply elem_of_cons in Hunit as [[= -> -> ->] | Hunit]); [lia | lia | lia |].
    by apply elem_of_nil in Hunit. }
  rewrite (formatNumber_agree _ Hpos), Recharts_formatNumber_unit.
  assert (∀ D' k : Z,
            (0 < D')%Z → (0 <= k)%Z →
            inject_Z n / inject_Z (20 * D') < Double.pow2 k →
            Double.pow2 (k - 54) * inject_Z (20 * D') < 1 →
            ∃ N : Z,
              (0 ≤ N)%Z
              ∧ Float.toFixed1
                  (Float.Finite (Double.round (inject_Z n / inject_Z (20 * D')))) ++ suffix
                = Float.decimal (N / 10) ++ js "." ++ Float.decimal (N mod 10) ++ suffix
              ∧ (2 * Z.abs (10 * n - N * (20 * D')) ≤ 20 * D')%Z) as Hnear.
  { intros D' k HD Hk Hq Heps.
    destruct (toFixed1_nearest n D' k) as (N & HN & -> & Habs); try done.
    { assert (0 < inject_Z n) as H0 by lra.
      change 0 with (inject_Z 0) in H0. by rewrite <- Zlt_Qlt in H0. }
    exists N. split; [done|]. split; [by rewrite <- !app_assoc|]. lia. }
  apply elem_of_cons in Hunit as [[= -> -> ->] | Hunit];
    [|apply elem_of_cons in Hunit as [[= -> -> ->] | Hunit];
      [|apply elem_of_cons in Hunit as [[= -> -> ->] | Hunit];
        [|by apply elem_of_nil in Hunit]]].
  - pose proof (inject_Z_le_const n 999999 ltac:(lia)) as H2.
    change (inject_Z 999999) with 999999 in H2.
    rewrite !(proj2 (Qle_bool_false _ (inject_Z n))) by lra.
    rewrite (proj2 (Qle_bool_iff 1000 (inject_Z n))) by lra.
    destruct (Hnear 50%Z 10%Z) as (N & HN & HT & Habs); [lia | lia | | |].
    + apply Qlt_shift_div_r; [reflexivity|].
      change (Double.pow2 10) with 1024. change (inject_Z (20 * 50)) with 1000. lra.
    + reflexivity.
    + exists N. split; [done|]. split; [exact HT|]. split; [exact HT|done].
  - pose proof (inject_Z_le_const 1000000 n ltac:(lia)) as H1.
    pose proof (inject_Z_le_const n 999999999 ltac:(lia)) as H2.
    change (inject_Z 1000000) with 1000000 in H1.
    change (inject_Z 999999999) with 999999999 in H2.
    rewrite (proj2 (Qle_bool_false _ (inject_Z n))) by lra.
    rewrite (proj2 (Qle_bool_iff 1000000 (inject_Z n))) by lra.
    destruct (Hnear 50000%Z 10%Z) as (N & HN & HT & Habs); [lia | lia | | |].
    + apply Qlt_shift_div_r; [reflexivity|].
      change (Double.pow2 10) with 1024. change (inject_Z (20 * 50000)) with 1000000. lra.
    + reflexivity.
    + exists N. split; [done|]. split; [exact HT|]. split; [exact HT|done].
  - pose proof (inject_Z_le_const 1000000000 n ltac:(lia)) as H1.
    pose proof (inject_Z_le_const n (2 ^ 53) ltac:(lia)) as H2.
    change (inject_Z 1000000000) with 1000000000 in H1.
    change (inject_Z (2 ^ 53)) with 9007199254740992 in H2.
    rewrite (proj2 (Qle_bool_iff 1000000000 (inject_Z n))) by lra.
    destruct (Hnear 50000000%Z 24%Z) as (N & HN & HT & Habs); [lia | lia | | |].
    + apply Qlt_shift_div_r; [reflexivity|].
      change (Double.pow2 24) with 16777216.
      change (inject_Z (20 * 50000000)) with 1000000000. lra.
    + reflexivity.
    + exists N. split; [done|]. split; [exact HT|]. split; [exact HT|done].
Qed.
End formatNumber_facts.

Lemma X8_unreadable_balance_cell_witness :
  Tremor.balanceCell (H:=HostNumbers.enUS) (agentWithBalance "y" "abc") = js "0"
  ∧ Recharts.balanceCell (H:=HostNumbers.enUS) (agentWithBalance "y" "abc") = js "NaN".
Proof.
  destruct (X8_unreadable_balance_cell (H:=HostNumbers.enUS) (agentWithBalance "y" "abc"))
    as [HT HR].
  split; [apply HT | apply HR]; reflexivity.
Defined.

Lemma X9_formatNumber_variants_witness :
  Tremor.formatNumber (H:=HostNumbers.enUS) (Float.Finite (-1500))
  = js "-" ++ Tremor.formatNumber (H:=HostNumbers.enUS) (Float.Finite (- -1500))
  ∧ Tremor.formatNumber (H:=HostNumbers.enUS) (Float.Finite (-1500)) = js "-1.5K"
  ∧ Recharts.formatNumber (H:=HostNumbers.enUS) (Float.Finite (-1500)) = js "-1500".
Proof.
  split; [|split; vm_compute; reflexivity].
  apply (X9_formatNumber_variants (H:=HostNumbers.enUS) (-1500)%Q).
  vm_compute. discriminate.
Defined.

Lemma X10_formatNumber_rolls_over_witness :
  Tremor.formatNumber (H:=HostNumbers.enUS) (Float.of_Z 999999) = js "1000.0" ++ js "K"
  ∧ Recharts.formatNumber (H:=HostNumbers.enUS) (Float.of_Z 999999) = js "1000.0" ++ js "K".
Proof.
  apply (X10_formatNumber_rolls_over (H:=HostNumbers.enUS) 999999 1000 (js "K")).
  - apply list_elem_of_here.
  - lia.
  - lia.
Defined.

Lemma X21_formatNumber_nearest_tenth_witness :
  ∃ N : Z,
    (0 ≤ N)%Z
    ∧ Tremor.formatNumber (H:=HostNumbers.enUS) (Float.of_Z 1234567)
      = Float.decimal (N / 10) ++ js "." ++ Float.decimal (N mod 10) ++ js "M"
    ∧ Recharts.formatNumber (H:=HostNumbers.enUS) (Float.of_Z 1234567)
      = Float.decimal (N / 10) ++ js "." ++ Float.decimal (N mod 10) ++ js "M"
    ∧ (2 * Z.abs (10 * 1234567 - N * 1000000) ≤ 1000000)%Z.
Proof.
  apply (X21_formatNumber_nearest_tenth (H:=HostNumbers.enUS)
           1234567 1000000 1000000000 (js "M")).
  - apply list_elem_of_further, list_elem_of_here.
  - lia.
Defined.

(** ** Date labels of the agents-over-time chart, src/src/App.tsx *)

Section agentsOverTime_labels.
Context `{Runtime}.

(** "Jan 5", "Dec 31": a month of three letters, a space, one or two digits. *)
Lemma toLocaleDateString_length t : (length (toLocaleDateString (Some t)) ≤ 6)%nat.
Proof.
  unfold toLocaleDateString. cbv zeta. rewrite !length_app.
  assert (length (month_short (MonthFromTime (t + LocalTZA t))) = 3%nat) as ->.
  { unfold month_short. by repeat case_match. }
  assert (length (small_decimal (DateFromTime (t + LocalTZA t))) ≤ 2)%nat.
  { unfold small_decimal. case_match; simpl; rewrite ?length_app; simpl; lia. }
  simpl. lia.
Qed.

Lemma toLocaleDateString_short t :
  tickFormatter (toLocaleDateString (Some t)) 9 = toLocaleDateString (Some t).
Proof.
  apply tickFormatter_short. unfold str_length.
  pose proof (toLocaleDateString_length t). lia.
Qed.

(** The label a day's bucket is created with is kept. *)
Lemma bucketAgent_label buckets agent k :
  DayBucket.label <$> get k (Tremor.bucketAgent buckets agent)
  = match get k buckets with
    | Some v => Some (DayBucket.label v)
    | None =>
        if decide (dayKey agent = Some k)
        then Some (toLocaleDateString (Date_parse (Agent.created_at agent)))
        else None
    end.
Proof.
  unfold Tremor.bucketAgent, dayKey.
  destruct (Date_parse (Agent.created_at agent)) as [t|];
    cbn [fmap option_fmap option_map]; [|by destruct (get k buckets)].
  fold (isoDay t). destruct (decide (Some (isoDay t) = Some k)) as [[= <-]|Hne].
  - destruct (get (isoDay t) buckets) as [e|] eqn:E; rewrite get_set_eq;
      cbn [fmap option_fmap option_map DayBucket.label]; [done|].
    by rewrite toLocaleDateString_short.
  - assert (isoDay t ≠ k) by congruence.
    destruct (get (isoDay t) buckets) as [e|] eqn:E; rewrite get_set_ne by done;
      by destruct (get k buckets).
Qed.

Lemma buckets_label buckets agents k :
  DayBucket.label <$> get k (foldl Tremor.bucketAgent buckets agents)
  = match get k buckets with
    | Some v => Some (DayBucket.label v)
    | None =>
        (λ found, toLocaleDateString (Date_parse (Agent.created_at found.2)))
          <$> list_find (λ agent, dayKey agent = Some k) agents
    end.
Proof.
  revert buckets. induction agents as [|a agents IH]; intros buckets.
  - simpl. by destruct (get k buckets).
  - cbn [foldl]. rewrite IH. pose proof (bucketAgent_label buckets a k) as Hl.
    cbn [list_find].
    destruct (get k buckets) as [v|].
    + destruct (get k (Tremor.bucketAgent buckets a)); simpl in Hl; congruence.
    + destruct (decide (dayKey a = Some k)).
      * destruct (get k (Tremor.bucketAgent buckets a)); simpl in Hl; [|done].
        simpl. congruence.
      * destruct (get k (Tremor.bucketAgent buckets a)); simpl in Hl; [done|].
        rewrite <- option_fmap_compose. done.
Qed.

Lemma accumulate_labels c sorted :
  (λ row, (TimePoint.key row, TimePoint.date row)) <$> Tremor.accumulate c sorted
  = (λ e, (e.1, DayBucket.label e.2)) <$> sorted.
Proof.
  revert c. induction sorted as [|[k v] sorted IH]; intros c; [done|].
  cbn [Tremor.accumulate]. rewrite !fmap_cons, IH. done.
Qed.

(** X12.  In App.tsx every row of the agents-over-time chart is labelled
    with the local calendar date ("Jan 5") of the first agent in the list
    that was created on the row's day: agents that join the day later do
    not change the label, [tickFormatter(label, 9)] never shortens it (it
    has at most 6 characters), and it is never "Invalid Date". *)
Theorem X12_Tremor_agentsOverTime_labels (agents : list Agent.t) :
  Forall (λ row,
    ∃ i agent,
      list_find (λ agent, dayKey agent = Some (TimePoint.key row)) agents = Some (i, agent)
      ∧ TimePoint.date row = toLocaleDateString (Date_parse (Agent.created_at agent))
      ∧ TimePoint.date row ≠ js "Invalid Date"
      ∧ (length (TimePoint.date row) ≤ 6)%nat)
    (Tremor.agentsOverTime agents).
Proof.
  apply Forall_forall. intros row Hrow.
  unfold Tremor.agentsOverTime, Map_entries in Hrow. cbv zeta in Hrow.
  set (buckets := foldl Tremor.bucketAgent [] agents) in *.
  set (sorted := Array_sort (λ a b, Some (localeCompare a.1 b.1)) buckets) in *.
  assert (Hnd : NoDup buckets.*1) by (apply buckets_NoDup; constructor).
  assert (Hperm : sorted ≡ₚ buckets) by apply Array_sort_Permutation.
  assert (Hin : (TimePoint.key row, TimePoint.date row)
                ∈ (λ e, (e.1, DayBucket.label e.2)) <$> sorted).
  { rewrite <- (accumulate_labels 0). apply list_elem_of_fmap. by exists row. }
  apply list_elem_of_fmap in Hin as ([k v] & [= Hk Hl] & Hin). simpl in *.
  rewrite Hperm in Hin. apply (elem_get _ _ _ Hnd) in Hin.
  pose proof (buckets_label [] agents k) as Hlab. fold buckets in Hlab.
  rewrite Hin in Hlab. simpl in Hlab.
  destruct (list_find (λ agent, dayKey agent = Some k) agents) as [[i agent]|] eqn:Hfind;
    [|done].
  simpl in Hlab. injection Hlab as Hlab.
  exists i, agent. rewrite Hk, Hl, Hlab. split; [done|]. split; [done|].
  apply list_find_Some in Hfind as (_ & Hday & _).
  unfold dayKey in Hday. destruct (Date_parse (Agent.created_at agent)) as [t|]; [|done].
  split.
  - unfold toLocaleDateString, month_short. cbv zeta. by repeat case_match.
  - apply toLocaleDateString_length.
Qed.
End agentsOverTime_labels.

(** ** The count-up hook *)

Section animated.
Local Open Scope Q_scope.
Import Tremor.AnimatedNumber.










End animated.




(** ** Witnesses of the general facts about the claims' view-models *)

Lemma Recharts_agentsOverTime_counts_all_witness :
  last (Recharts.TimePoint.cumulative
          <$> Recharts.agentsOverTime (H:=Host.utc) [agentCreated "not a date"])
  = Some 1.
Proof.
  apply (Recharts_agentsOverTime_counts_all (H:=Host.utc) [agentCreated "not a date"]).
  discriminate.
Defined.

Lemma Recharts_completionRate_no_jobs_witness :
  Recharts.completionRate (Some noJobsYet) = js "NaN"
  ∨ Recharts.completionRate (Some noJobsYet) = js "Infinity"
  ∨ Recharts.completionRate (Some noJobsYet) = js "-Infinity".
Proof. apply (Recharts_completionRate_no_jobs noJobsYet). reflexivity. Defined.

